(** * libqb [lib/tsafe.c]: the thread-safety guard

    A shallow embedding of the interposition layer of libqb that bans
    functions "known not to be thread safe (see man pthreads)".  Every
    C function of the file is a definition of the same name below.  The
    process is a record of the file's static variables; the wrappers are
    computations in a small state-and-halt monad that also logs what the
    code does (lock operations, accesses to the flags, symbol resolution,
    calls through the cached pointers, failed assertions). *)

From Stdlib Require Import ZArith List String Ascii Bool Lia.
Import ListNotations.

Local Open Scope string_scope.
Local Open Scope list_scope.
Local Open Scope Z_scope.

(** ** C data *)

(** Addresses of functions and handles of the dynamic loader. *)
Definition ptr := Z.
Definition NULL : ptr := 0.
(** [RTLD_NEXT], defined as -1 cast to a pointer when the platform
    does not provide it. *)
Definition RTLD_NEXT : ptr := -1.
Definition INT32_MAX : Z := 2147483647.

(** Values that cross the interposed interface.  A C string is the
    sequence of its characters before the terminator.  [Venv entry off]
    is the address [coro_environ[entry] + off], a pointer into the
    snapshot; [Vobj] stands for any other object (a [struct tm *], a
    [double], a [DIR *], ...), which the wrappers only pass along. *)
Inductive cval : Type :=
| Vnull
| Vint (n : Z)
| Vstr (s : string)
| Venv (entry : Z) (off : Z)
| Vobj (id : Z)
| Vvoid.

(** [strlen] *)
Definition strlen (s : string) : Z := Z.of_nat (String.length s).

(** [strchr(s, c)]: the offset of the first [c] in [s]; [None] is the
    null result. *)
Fixpoint strchr (s : string) (c : ascii) : option Z :=
  match s with
  | EmptyString => None
  | String a r =>
      if Ascii.eqb a c then Some 0 else option_map Z.succ (strchr r c)
  end.

Definition code (a : ascii) : Z := Z.of_nat (nat_of_ascii a).

(** [strncmp(s1, s2, n)]: at most [n] characters are compared, as
    unsigned bytes, and the comparison stops at the end of a string. *)
Fixpoint strncmp (s1 s2 : string) (n : nat) : Z :=
  match n with
  | O => 0
  | S n' =>
      match s1, s2 with
      | EmptyString, EmptyString => 0
      | EmptyString, String c2 _ => 0 - code c2
      | String c1 _, EmptyString => code c1
      | String c1 r1, String c2 r2 =>
          if Ascii.eqb c1 c2 then strncmp r1 r2 n' else code c1 - code c2
      end
  end.

(** The characters of [s] from offset [n] on: what a [char *] to
    [s + n] reads. *)
Fixpoint string_from (n : nat) (s : string) : string :=
  match n, s with
  | O, _ => s
  | S n', String _ r => string_from n' r
  | S _, EmptyString => EmptyString
  end.

(** ** The platform

    What the file takes from its surroundings: the build configuration,
    the dynamic loader and the code found at the resolved addresses.
    [sizeof_ptr] is the size of a [char] pointer.  [call_ptr p args w]
    is the behaviour of the function at the non-null address [p]: its
    result and its effect on the rest of the process (the real
    environment, libc's static buffers, ...). *)
Class Platform : Type := {
  world : Type;
  QB_BSD : bool;
  HAVE_PTHREAD_SPIN_LOCK : bool;
  sizeof_ptr : Z;
  dlopen : string -> ptr;
  dlsym : ptr -> string -> ptr;
  call_ptr : ptr -> list cval -> world -> cval * world
}.

(** ** What a run of the code does, in order *)
Inductive event : Type :=
| EvLock
| EvUnlock
| EvReadInited
| EvReadDisabled
| EvWriteDisabled (v : Z)
| EvWriteInited (v : Z)
| EvDlsym (func_name : string)
| EvCall (p : ptr) (args : list cval)
| EvAssert
| EvMalloc (size : Z)
| EvStrdup (s : string)
| EvAtfork.

(** How a run can end without returning: a failed [assert], a call
    through a null pointer, a lock that is never obtained, and behaviour
    the C standard leaves undefined (signed overflow, arithmetic on a
    null pointer). *)
Inductive halt : Type := Aborted | Faulted | Blocked | Undefined.

Inductive result (A : Type) : Type :=
| Ok (a : A)
| Halt (h : halt).
Arguments Ok {A} a.
Arguments Halt {A} h.

(** A small platform to run the code on: a Linux-like build whose world
    is the real environment, a list of [NAME=VALUE] strings.  Its libc
    has no [lgammal] (the symbol does not resolve); the real [setenv]
    adds a binding at the front; the real [crypt] joins salt and key;
    every other function returns its own address and leaves the world
    alone. *)
Definition demo_dlsym (handle : ptr) (func_name : string) : ptr :=
  if String.eqb func_name "lgammal" then NULL
  else if String.eqb func_name "setenv" then 4097
  else 4096 + 16 * Z.of_nat (String.length func_name).

Definition demo_call (p : ptr) (args : list cval) (w : list string)
  : cval * list string :=
  if p =? 4097 then
    match args with
    | [Vstr name; Vstr value; _] =>
        (Vint 0, (name ++ "=" ++ value)%string :: w)
    | _ => (Vint (-1), w)
    end
  else if p =? 4176 then
    match args with
    | [Vstr key; Vstr salt] => (Vstr (salt ++ key)%string, w)
    | _ => (Vnull, w)
    end
  else (Vint p, w).

Definition demo_platform : Platform :=
  {| world := list string;
     QB_BSD := false;
     HAVE_PTHREAD_SPIN_LOCK := true;
     sizeof_ptr := 8;
     dlopen := fun _ => 3;
     dlsym := demo_dlsym;
     call_ptr := demo_call |}.

Section Tsafe.
Context {P : Platform}.

(** ** The process: the static variables of the file

    [real_ "setenv"] is the function-local [static] pointer
    [real_setenv], and so on for each wrapper; each starts as [NULL].
    [coro_environ] is [None] while the pointer is null, else the entries
    before the terminating null. *)
Record proc : Type := mkproc {
  tsafe_disabled : Z;
  tsafe_inited : Z;
  coro_environ : option (list string);
  tsafe_enabled_mutex : bool;
  real_ : string -> ptr;
  libc : world;
  trace : list event
}.

(** [static int32_t tsafe_disabled = 1; static int32_t tsafe_inited = 0;]

    The lock starts free.  This is what [PTHREAD_MUTEX_INITIALIZER]
    gives the mutex.  The spin lock has no initialiser and is first set
    up by the [pthread_spin_init] of [qb_tsafe_init]: on such a build
    the only code that can take the lock before that is a
    [qb_tsafe_on] or [qb_tsafe_off] called before initialisation, and
    what the lock then does is not determined by this file. *)
Definition initial (w : world) : proc :=
  {| tsafe_disabled := 1;
     tsafe_inited := 0;
     coro_environ := None;
     tsafe_enabled_mutex := false;
     real_ := fun _ => NULL;
     libc := w;
     trace := [] |}.

Definition log (es : list event) (s : proc) : proc :=
  {| tsafe_disabled := tsafe_disabled s;
     tsafe_inited := tsafe_inited s;
     coro_environ := coro_environ s;
     tsafe_enabled_mutex := tsafe_enabled_mutex s;
     real_ := real_ s;
     libc := libc s;
     trace := trace s ++ es |}.

Definition set_disabled (v : Z) (s : proc) : proc :=
  {| tsafe_disabled := v;
     tsafe_inited := tsafe_inited s;
     coro_environ := coro_environ s;
     tsafe_enabled_mutex := tsafe_enabled_mutex s;
     real_ := real_ s;
     libc := libc s;
     trace := trace s |}.

Definition set_inited (v : Z) (s : proc) : proc :=
  {| tsafe_disabled := tsafe_disabled s;
     tsafe_inited := v;
     coro_environ := coro_environ s;
     tsafe_enabled_mutex := tsafe_enabled_mutex s;
     real_ := real_ s;
     libc := libc s;
     trace := trace s |}.

Definition set_environ (e : option (list string)) (s : proc) : proc :=
  {| tsafe_disabled := tsafe_disabled s;
     tsafe_inited := tsafe_inited s;
     coro_environ := e;
     tsafe_enabled_mutex := tsafe_enabled_mutex s;
     real_ := real_ s;
     libc := libc s;
     trace := trace s |}.

Definition set_mutex (b : bool) (s : proc) : proc :=
  {| tsafe_disabled := tsafe_disabled s;
     tsafe_inited := tsafe_inited s;
     coro_environ := coro_environ s;
     tsafe_enabled_mutex := b;
     real_ := real_ s;
     libc := libc s;
     trace := trace s |}.

Definition set_real (func_name : string) (p : ptr) (s : proc) : proc :=
  {| tsafe_disabled := tsafe_disabled s;
     tsafe_inited := tsafe_inited s;
     coro_environ := coro_environ s;
     tsafe_enabled_mutex := tsafe_enabled_mutex s;
     real_ := fun f => if String.eqb f func_name then p else real_ s f;
     libc := libc s;
     trace := trace s |}.

Definition set_libc (w : world) (s : proc) : proc :=
  {| tsafe_disabled := tsafe_disabled s;
     tsafe_inited := tsafe_inited s;
     coro_environ := coro_environ s;
     tsafe_enabled_mutex := tsafe_enabled_mutex s;
     real_ := real_ s;
     libc := w;
     trace := trace s |}.

(** ** The monad of the code *)
Definition M (A : Type) : Type := proc -> result A * proc.

Definition ret {A : Type} (a : A) : M A := fun s => (Ok a, s).

Definition bind {A B : Type} (m : M A) (k : A -> M B) : M B :=
  fun s =>
    match m s with
    | (Ok a, s') => k a s'
    | (Halt h, s') => (Halt h, s')
    end.

Notation "x <- m ;; k" := (bind m (fun x => k))
  (at level 61, m at next level, right associativity).
Notation "m ;; k" := (bind m (fun _ => k))
  (at level 61, right associativity).

Definition stop {A : Type} (h : halt) : M A := fun s => (Halt h, s).
Definition emit (e : event) : M unit := fun s => (Ok tt, log [e] s).

Definition read_inited : M Z :=
  fun s => (Ok (tsafe_inited s), log [EvReadInited] s).
Definition read_disabled : M Z :=
  fun s => (Ok (tsafe_disabled s), log [EvReadDisabled] s).
Definition write_disabled (v : Z) : M unit :=
  fun s => (Ok tt, log [EvWriteDisabled v] (set_disabled v s)).
Definition write_inited (v : Z) : M unit :=
  fun s => (Ok tt, log [EvWriteInited v] (set_inited v s)).

(** [assert(0)], with assertions compiled in. *)
Definition assert0 : M unit := emit EvAssert ;; stop Aborted.

(** ** The lock

    Neither a spin lock nor a default mutex can be taken twice: a
    [tsafe_lock] on a held lock never returns.  [tsafe_unlock] leaves
    the lock free; the file only calls it on a lock it holds. *)
Definition tsafe_lock : M unit :=
  fun s =>
    if tsafe_enabled_mutex s then (Halt Blocked, s)
    else (Ok tt, log [EvLock] (set_mutex true s)).

Definition tsafe_unlock : M unit :=
  fun s => (Ok tt, log [EvUnlock] (set_mutex false s)).

Definition qb_tsafe_off : M unit :=
  tsafe_lock ;; write_disabled 1 ;; tsafe_unlock.

Definition qb_tsafe_on : M unit :=
  tsafe_lock ;; write_disabled 0 ;; tsafe_unlock.

(** ** The fork handlers *)
Definition atfork_prepare : M unit := tsafe_lock.

Definition atfork_parent : M unit := tsafe_unlock.

Definition atfork_child : M unit :=
  i <- read_inited ;;
  (if i =? 0 then ret tt
   else
     d <- read_disabled ;;
     if d =? 0 then write_disabled 1 else ret tt) ;;
  tsafe_unlock.

(** ** Initialisation *)

(** [for (i = 0; envp[i] != NULL; i++) size++;] *)
Fixpoint count_entries (envp : list string) (size : Z) : Z :=
  match envp with
  | [] => size
  | _ :: rest => count_entries rest (size + 1)
  end.

(** [for (i = 0; envp[i] != NULL; i++) coro_environ[i] = strdup(envp[i]);] *)
Fixpoint dup_entries (envp : list string) : M (list string) :=
  match envp with
  | [] => ret []
  | e :: rest =>
      emit (EvStrdup e) ;;
      copies <- dup_entries rest ;;
      ret (e :: copies)
  end.

(** [size] and [i] are [int32_t]: counting more than [INT32_MAX] is a
    signed overflow.  Allocation is taken to succeed. *)
Definition qb_tsafe_init (envp : list string) : M unit :=
  let size := count_entries envp 1 in
  if INT32_MAX <? size then stop Undefined
  else
    emit (EvMalloc (sizeof_ptr * size)) ;;
    copies <- dup_entries envp ;;
    (fun s => (Ok tt, set_environ (Some copies) s)) ;;
    (if HAVE_PTHREAD_SPIN_LOCK
     then (fun s => (Ok tt, set_mutex false s))
     else ret tt) ;;
    emit EvAtfork ;;
    write_disabled 1 ;;
    write_inited 1.

(** ** Resolving and calling the real functions *)
Definition _get_real_func_ (func_name : string) : M ptr :=
  emit (EvDlsym func_name) ;;
  ret (if QB_BSD
       then dlsym (dlopen "/usr/lib/libc.so") func_name
       else dlsym RTLD_NEXT func_name).

(** A call through a function pointer; through a null one it faults. *)
Definition call_real (p : ptr) (args : list cval) : M cval :=
  if p =? NULL then stop Faulted
  else
    fun s =>
      let (v, w) := call_ptr p args (libc s) in
      (Ok v, set_libc w (log [EvCall p args] s)).

(** [if (real_f == NULL) { real_f = _get_real_func_("f"); }] *)
Definition resolve_once (func_name : string) : M unit :=
  fun s =>
    if real_ s func_name =? NULL then
      (p <- _get_real_func_ func_name ;;
       fun s' => (Ok tt, set_real func_name p s')) s
    else (Ok tt, s).

(** [... return real_f(args);] *)
Definition forward (func_name : string) (args : list cval) : M cval :=
  resolve_once func_name ;;
  fun s => call_real (real_ s func_name) args s.

(** [!tsafe_inited || tsafe_disabled], the second operand evaluated only
    when the first is false. *)
Definition gate_off : M bool :=
  i <- read_inited ;;
  if i =? 0 then ret true
  else d <- read_disabled ;; ret (negb (d =? 0)).

(** The body shared by the banned functions:
    [if (!tsafe_inited || tsafe_disabled) { ...; return real_f(args); }
     assert(0); return dflt;] *)
Definition banned (func_name : string) (args : list cval) (dflt : cval)
  : M cval :=
  off <- gate_off ;;
  if off then forward func_name args
  else assert0 ;; ret dflt.

(** ** The thread-creation wrapper (Linux)

    "we are implementing these functions only to know when to turn tsafe
    on and off." *)
Definition pthread_create (thread attr start_routine arg : cval) : M cval :=
  i <- read_inited ;;
  (if i =? 0 then ret tt
   else
     d <- read_disabled ;;
     if d =? 0 then ret tt else qb_tsafe_on) ;;
  forward "pthread_create" [thread; attr; start_routine; arg].

(** ** [getenv]: banned or re-implemented, depending on the gate *)

(** The search loop of [getenv] over the entries from index [entry] on.
    [Ok (Some entry)] is [found = 1] at that index, [Ok None] is the loop
    ending at the terminating null.  For an entry without the character,
    [strchr] is null and [eq - coro_environ[entry]] is not defined;
    [entry] is an [int32_t] and cannot be incremented past [INT32_MAX]. *)
Fixpoint getenv_scan (name : string) (rest : list string) (entry : Z)
  : result (option Z) :=
  match rest with
  | [] => Ok None
  | e :: rest' =>
      match strchr e "="%char with
      | None => Halt Undefined
      | Some eq =>
          let name_len := eq in
          if (name_len =? strlen name)
             && (strncmp name e (Z.to_nat name_len) =? 0)
          then Ok (Some entry)
          else if INT32_MAX <=? entry then Halt Undefined
          else getenv_scan name rest' (entry + 1)
      end
  end.

Definition getenv (name : string) : M cval :=
  off <- gate_off ;;
  if off then forward "getenv" [Vstr name]
  else
    fun s =>
      match coro_environ s with
      | None => (Halt Faulted, s)
      | Some env =>
          match getenv_scan name env 0 with
          | Halt h => (Halt h, s)
          | Ok None => (Ok Vnull, s)
          | Ok (Some entry) =>
              match nth_error env (Z.to_nat entry) with
              | None => (Halt Faulted, s)
              | Some e =>
                  match strchr e "="%char with
                  | None => (Halt Undefined, s)
                  | Some eq => (Ok (Venv entry (eq + 1)), s)
                  end
              end
          end
      end.

(** ** The banned functions: "all the following functions are banned and
    will result in an abort."

    Those under a [HAVE_...] condition are present when the build has
    them. *)
Definition setenv (name value overwrite : cval) : M cval :=
  banned "setenv" [name; value; overwrite] (Vint 0).
Definition unsetenv (name : cval) : M cval :=
  banned "unsetenv" [name] (Vint 0).
Definition putenv (str : cval) : M cval :=
  banned "putenv" [str] (Vint 0).
Definition asctime (tm : cval) : M cval :=
  banned "asctime" [tm] (Vnull).
Definition basename (path : cval) : M cval :=
  banned "basename" [path] (Vnull).
(** [crypt] is written with the call [real_crypt(salt)] although
    [real_crypt] is declared with the two parameters [key] and [salt].
    C does not accept a call with too few arguments through a prototyped
    pointer, so the file does not compile where [HAVE_CRYPT] is defined
    and no build of the library contains this wrapper.  The definition
    renders the text as it stands, so that the catalogue is complete. *)
Definition crypt (key salt : cval) : M cval :=
  banned "crypt" [salt] (Vnull).
Definition ctermid (s : cval) : M cval :=
  banned "ctermid" [s] (Vnull).
Definition ctime (timep : cval) : M cval :=
  banned "ctime" [timep] (Vnull).
Definition dirname (path : cval) : M cval :=
  banned "dirname" [path] (Vnull).
Definition drand48 : M cval :=
  banned "drand48" [] (Vint 0).
Definition encrypt (block edflag : cval) : M cval :=
  banned "encrypt" [block; edflag] (Vvoid).
Definition endgrent : M cval :=
  banned "endgrent" [] (Vvoid).
Definition endpwent : M cval :=
  banned "endpwent" [] (Vvoid).
Definition getdate (str : cval) : M cval :=
  banned "getdate" [str] (Vnull).
Definition getgrent : M cval :=
  banned "getgrent" [] (Vnull).
Definition getgrgid (gid : cval) : M cval :=
  banned "getgrgid" [gid] (Vnull).
Definition getgrnam (name : cval) : M cval :=
  banned "getgrnam" [name] (Vnull).
Definition gethostent : M cval :=
  banned "gethostent" [] (Vnull).
Definition getlogin : M cval :=
  banned "getlogin" [] (Vnull).
Definition getnetbyaddr (net type : cval) : M cval :=
  banned "getnetbyaddr" [net; type] (Vnull).
Definition getnetbyname (name : cval) : M cval :=
  banned "getnetbyname" [name] (Vnull).
Definition getnetent : M cval :=
  banned "getnetent" [] (Vnull).
Definition getprotobyname (name : cval) : M cval :=
  banned "getprotobyname" [name] (Vnull).
Definition getprotobynumber (proto : cval) : M cval :=
  banned "getprotobynumber" [proto] (Vnull).
Definition getprotoent : M cval :=
  banned "getprotoent" [] (Vnull).
Definition getpwent : M cval :=
  banned "getpwent" [] (Vnull).
Definition getpwnam (name : cval) : M cval :=
  banned "getpwnam" [name] (Vnull).
Definition getpwuid (uid : cval) : M cval :=
  banned "getpwuid" [uid] (Vnull).
Definition getservent : M cval :=
  banned "getservent" [] (Vnull).
Definition getservbyname (name proto : cval) : M cval :=
  banned "getservbyname" [name; proto] (Vnull).
Definition getservbyport (port proto : cval) : M cval :=
  banned "getservbyport" [port; proto] (Vnull).
Definition getutxent : M cval :=
  banned "getutxent" [] (Vnull).
Definition getutxid (a : cval) : M cval :=
  banned "getutxid" [a] (Vnull).
Definition getutxline (a : cval) : M cval :=
  banned "getutxline" [a] (Vnull).
Definition gmtime (timep : cval) : M cval :=
  banned "gmtime" [timep] (Vnull).
Definition hcreate (nel : cval) : M cval :=
  banned "hcreate" [nel] (Vint 0).
Definition hsearch (item action : cval) : M cval :=
  banned "hsearch" [item; action] (Vnull).
Definition hdestroy : M cval :=
  banned "hdestroy" [] (Vvoid).
Definition inet_ntoa (in_ : cval) : M cval :=
  banned "inet_ntoa" [in_] (Vnull).
Definition l64a (value : cval) : M cval :=
  banned "l64a" [value] (Vnull).
Definition lgamma (x : cval) : M cval :=
  banned "lgamma" [x] (Vint 0).
Definition lgammaf (x : cval) : M cval :=
  banned "lgammaf" [x] (Vint 0).
Definition lgammal (x : cval) : M cval :=
  banned "lgammal" [x] (Vint 0).
Definition localeconv : M cval :=
  banned "localeconv" [] (Vnull).
Definition localtime (timep : cval) : M cval :=
  banned "localtime" [timep] (Vnull).
Definition lrand48 : M cval :=
  banned "lrand48" [] (Vint 0).
Definition mrand48 : M cval :=
  banned "mrand48" [] (Vint 0).
Definition pututxline (a : cval) : M cval :=
  banned "pututxline" [a] (Vnull).
Definition rand : M cval :=
  banned "rand" [] (Vint 0).
Definition readdir (dirp : cval) : M cval :=
  banned "readdir" [dirp] (Vnull).
(** [setgrent] returns [int] on BSD and nothing elsewhere; the two
    variants are written separately in the source. *)
Definition setgrent : M cval :=
  if QB_BSD then banned "setgrent" [] (Vint 0)
  else
    off <- gate_off ;;
    (if off then forward "setgrent" [] ;; ret tt else ret tt) ;;
    assert0 ;;
    ret Vvoid.
Definition setkey (key : cval) : M cval :=
  banned "setkey" [key] (Vvoid).
Definition setpwent : M cval :=
  banned "setpwent" [] (Vvoid).
Definition setutxent : M cval :=
  banned "setutxent" [] (Vvoid).
Definition strerror (errnum : cval) : M cval :=
  banned "strerror" [errnum] (Vnull).
Definition strsignal (sig : cval) : M cval :=
  banned "strsignal" [sig] (Vnull).
Definition strtok (str delim : cval) : M cval :=
  banned "strtok" [str; delim] (Vnull).
Definition system (command : cval) : M cval :=
  banned "system" [command] (Vint 0).
Definition tmpnam (s : cval) : M cval :=
  banned "tmpnam" [s] (Vnull).
Definition ttyname (fd : cval) : M cval :=
  banned "ttyname" [fd] (Vnull).
(** [catgets] has no real function behind it. *)
Definition catgets (catalog set_number message_number message : cval)
  : M cval :=
  ret Vnull.

(** ** Calls into the library

    One constructor per banned entry point, with the arguments of its C
    signature. *)
Inductive banned_call : Type :=
| c_setenv (name value overwrite : cval)
| c_unsetenv (name : cval)
| c_putenv (str : cval)
| c_asctime (tm : cval)
| c_basename (path : cval)
| c_crypt (key salt : cval)
| c_ctermid (s : cval)
| c_ctime (timep : cval)
| c_dirname (path : cval)
| c_drand48
| c_encrypt (block edflag : cval)
| c_endgrent
| c_endpwent
| c_getdate (str : cval)
| c_getgrent
| c_getgrgid (gid : cval)
| c_getgrnam (name : cval)
| c_gethostent
| c_getlogin
| c_getnetbyaddr (net type : cval)
| c_getnetbyname (name : cval)
| c_getnetent
| c_getprotobyname (name : cval)
| c_getprotobynumber (proto : cval)
| c_getprotoent
| c_getpwent
| c_getpwnam (name : cval)
| c_getpwuid (uid : cval)
| c_getservent
| c_getservbyname (name proto : cval)
| c_getservbyport (port proto : cval)
| c_getutxent
| c_getutxid (a : cval)
| c_getutxline (a : cval)
| c_gmtime (timep : cval)
| c_hcreate (nel : cval)
| c_hsearch (item action : cval)
| c_hdestroy
| c_inet_ntoa (in_ : cval)
| c_l64a (value : cval)
| c_lgamma (x : cval)
| c_lgammaf (x : cval)
| c_lgammal (x : cval)
| c_localeconv
| c_localtime (timep : cval)
| c_lrand48
| c_mrand48
| c_pututxline (a : cval)
| c_rand
| c_readdir (dirp : cval)
| c_setgrent
| c_setkey (key : cval)
| c_setpwent
| c_setutxent
| c_strerror (errnum : cval)
| c_strsignal (sig : cval)
| c_strtok (str delim : cval)
| c_system (command : cval)
| c_tmpnam (s : cval)
| c_ttyname (fd : cval).

Definition exec_banned (b : banned_call) : M cval :=
  match b with
  | c_setenv name value overwrite => setenv name value overwrite
  | c_unsetenv name => unsetenv name
  | c_putenv str => putenv str
  | c_asctime tm => asctime tm
  | c_basename path => basename path
  | c_crypt key salt => crypt key salt
  | c_ctermid s => ctermid s
  | c_ctime timep => ctime timep
  | c_dirname path => dirname path
  | c_drand48 => drand48
  | c_encrypt block edflag => encrypt block edflag
  | c_endgrent => endgrent
  | c_endpwent => endpwent
  | c_getdate str => getdate str
  | c_getgrent => getgrent
  | c_getgrgid gid => getgrgid gid
  | c_getgrnam name => getgrnam name
  | c_gethostent => gethostent
  | c_getlogin => getlogin
  | c_getnetbyaddr net type => getnetbyaddr net type
  | c_getnetbyname name => getnetbyname name
  | c_getnetent => getnetent
  | c_getprotobyname name => getprotobyname name
  | c_getprotobynumber proto => getprotobynumber proto
  | c_getprotoent => getprotoent
  | c_getpwent => getpwent
  | c_getpwnam name => getpwnam name
  | c_getpwuid uid => getpwuid uid
  | c_getservent => getservent
  | c_getservbyname name proto => getservbyname name proto
  | c_getservbyport port proto => getservbyport port proto
  | c_getutxent => getutxent
  | c_getutxid a => getutxid a
  | c_getutxline a => getutxline a
  | c_gmtime timep => gmtime timep
  | c_hcreate nel => hcreate nel
  | c_hsearch item action => hsearch item action
  | c_hdestroy => hdestroy
  | c_inet_ntoa in_ => inet_ntoa in_
  | c_l64a value => l64a value
  | c_lgamma x => lgamma x
  | c_lgammaf x => lgammaf x
  | c_lgammal x => lgammal x
  | c_localeconv => localeconv
  | c_localtime timep => localtime timep
  | c_lrand48 => lrand48
  | c_mrand48 => mrand48
  | c_pututxline a => pututxline a
  | c_rand => rand
  | c_readdir dirp => readdir dirp
  | c_setgrent => setgrent
  | c_setkey key => setkey key
  | c_setpwent => setpwent
  | c_setutxent => setutxent
  | c_strerror errnum => strerror errnum
  | c_strsignal sig => strsignal sig
  | c_strtok str delim => strtok str delim
  | c_system command => system command
  | c_tmpnam s => tmpnam s
  | c_ttyname fd => ttyname fd
  end.

(** The name an entry point is linked under. *)
Definition symbol (b : banned_call) : string :=
  match b with
  | c_setenv _ _ _ => "setenv"
  | c_unsetenv _ => "unsetenv"
  | c_putenv _ => "putenv"
  | c_asctime _ => "asctime"
  | c_basename _ => "basename"
  | c_crypt _ _ => "crypt"
  | c_ctermid _ => "ctermid"
  | c_ctime _ => "ctime"
  | c_dirname _ => "dirname"
  | c_drand48 => "drand48"
  | c_encrypt _ _ => "encrypt"
  | c_endgrent => "endgrent"
  | c_endpwent => "endpwent"
  | c_getdate _ => "getdate"
  | c_getgrent => "getgrent"
  | c_getgrgid _ => "getgrgid"
  | c_getgrnam _ => "getgrnam"
  | c_gethostent => "gethostent"
  | c_getlogin => "getlogin"
  | c_getnetbyaddr _ _ => "getnetbyaddr"
  | c_getnetbyname _ => "getnetbyname"
  | c_getnetent => "getnetent"
  | c_getprotobyname _ => "getprotobyname"
  | c_getprotobynumber _ => "getprotobynumber"
  | c_getprotoent => "getprotoent"
  | c_getpwent => "getpwent"
  | c_getpwnam _ => "getpwnam"
  | c_getpwuid _ => "getpwuid"
  | c_getservent => "getservent"
  | c_getservbyname _ _ => "getservbyname"
  | c_getservbyport _ _ => "getservbyport"
  | c_getutxent => "getutxent"
  | c_getutxid _ => "getutxid"
  | c_getutxline _ => "getutxline"
  | c_gmtime _ => "gmtime"
  | c_hcreate _ => "hcreate"
  | c_hsearch _ _ => "hsearch"
  | c_hdestroy => "hdestroy"
  | c_inet_ntoa _ => "inet_ntoa"
  | c_l64a _ => "l64a"
  | c_lgamma _ => "lgamma"
  | c_lgammaf _ => "lgammaf"
  | c_lgammal _ => "lgammal"
  | c_localeconv => "localeconv"
  | c_localtime _ => "localtime"
  | c_lrand48 => "lrand48"
  | c_mrand48 => "mrand48"
  | c_pututxline _ => "pututxline"
  | c_rand => "rand"
  | c_readdir _ => "readdir"
  | c_setgrent => "setgrent"
  | c_setkey _ => "setkey"
  | c_setpwent => "setpwent"
  | c_setutxent => "setutxent"
  | c_strerror _ => "strerror"
  | c_strsignal _ => "strsignal"
  | c_strtok _ _ => "strtok"
  | c_system _ => "system"
  | c_tmpnam _ => "tmpnam"
  | c_ttyname _ => "ttyname"
  end.

(** The arguments an entry point is called with, in the order of its C
    signature. *)
Definition arguments (b : banned_call) : list cval :=
  match b with
  | c_setenv name value overwrite => [name; value; overwrite]
  | c_unsetenv name => [name]
  | c_putenv str => [str]
  | c_asctime tm => [tm]
  | c_basename path => [path]
  | c_crypt key salt => [key; salt]
  | c_ctermid s => [s]
  | c_ctime timep => [timep]
  | c_dirname path => [path]
  | c_drand48 => []
  | c_encrypt block edflag => [block; edflag]
  | c_endgrent => []
  | c_endpwent => []
  | c_getdate str => [str]
  | c_getgrent => []
  | c_getgrgid gid => [gid]
  | c_getgrnam name => [name]
  | c_gethostent => []
  | c_getlogin => []
  | c_getnetbyaddr net type => [net; type]
  | c_getnetbyname name => [name]
  | c_getnetent => []
  | c_getprotobyname name => [name]
  | c_getprotobynumber proto => [proto]
  | c_getprotoent => []
  | c_getpwent => []
  | c_getpwnam name => [name]
  | c_getpwuid uid => [uid]
  | c_getservent => []
  | c_getservbyname name proto => [name; proto]
  | c_getservbyport port proto => [port; proto]
  | c_getutxent => []
  | c_getutxid a => [a]
  | c_getutxline a => [a]
  | c_gmtime timep => [timep]
  | c_hcreate nel => [nel]
  | c_hsearch item action => [item; action]
  | c_hdestroy => []
  | c_inet_ntoa in_ => [in_]
  | c_l64a value => [value]
  | c_lgamma x => [x]
  | c_lgammaf x => [x]
  | c_lgammal x => [x]
  | c_localeconv => []
  | c_localtime timep => [timep]
  | c_lrand48 => []
  | c_mrand48 => []
  | c_pututxline a => [a]
  | c_rand => []
  | c_readdir dirp => [dirp]
  | c_setgrent => []
  | c_setkey key => [key]
  | c_setpwent => []
  | c_setutxent => []
  | c_strerror errnum => [errnum]
  | c_strsignal sig => [sig]
  | c_strtok str delim => [str; delim]
  | c_system command => [command]
  | c_tmpnam s => [s]
  | c_ttyname fd => [fd]
  end.

Inductive call : Type :=
| c_qb_tsafe_init (envp : list string)
| c_qb_tsafe_on
| c_qb_tsafe_off
| c_pthread_create (thread attr start_routine arg : cval)
| c_getenv (name : string)
| c_catgets (catalog set_number message_number message : cval)
| c_banned (b : banned_call).

Definition exec (c : call) : M cval :=
  match c with
  | c_qb_tsafe_init envp => qb_tsafe_init envp ;; ret Vvoid
  | c_qb_tsafe_on => qb_tsafe_on ;; ret Vvoid
  | c_qb_tsafe_off => qb_tsafe_off ;; ret Vvoid
  | c_pthread_create thread attr start_routine arg =>
      pthread_create thread attr start_routine arg
  | c_getenv name => getenv name
  | c_catgets catalog set_number message_number message =>
      catgets catalog set_number message_number message
  | c_banned b => exec_banned b
  end.

(** A process makes its calls one after the other until one of them does
    not return. *)
Fixpoint run (cs : list call) (s : proc) : option halt * proc :=
  match cs with
  | [] => (None, s)
  | c :: cs' =>
      match exec c s with
      | (Ok _, s') => run cs' s'
      | (Halt h, s') => (Some h, s')
      end
  end.

(** ** Reading the state *)

(** The address [_get_real_func_] finds for a name. *)
Definition resolved (func_name : string) : ptr :=
  if QB_BSD
  then dlsym (dlopen "/usr/lib/libc.so") func_name
  else dlsym RTLD_NEXT func_name.

(** The gate is enabled when the library is initialised and the flag
    [tsafe_disabled] is clear. *)
Definition gate_enabled (s : proc) : bool :=
  negb (tsafe_inited s =? 0) && (tsafe_disabled s =? 0).

(** The cached pointers hold nothing but what the resolver returned. *)
Definition coherent (s : proc) : Prop :=
  forall f, real_ s f = NULL \/ real_ s f = resolved f.

(** What running [m] in [s] appends to the log. *)
Definition emitted {A : Type} (m : M A) (s : proc) : list event :=
  skipn (List.length (trace s)) (trace (snd (m s))).

(** How often a name was handed to the resolver. *)
Fixpoint count_dlsym (f : string) (tr : list event) : nat :=
  match tr with
  | [] => O
  | EvDlsym g :: rest =>
      if String.eqb g f then S (count_dlsym f rest) else count_dlsym f rest
  | _ :: rest => count_dlsym f rest
  end.

(** The lock discipline on a log: every read and every write of
    [tsafe_disabled] happens between an [EvLock] and the next
    [EvUnlock].  [held] says whether the lock is held where the log
    starts. *)
Fixpoint flag_locked (held : bool) (tr : list event) : bool :=
  match tr with
  | [] => true
  | EvLock :: rest => flag_locked true rest
  | EvUnlock :: rest => flag_locked false rest
  | EvReadDisabled :: rest => held && flag_locked held rest
  | EvWriteDisabled _ :: rest => held && flag_locked held rest
  | _ :: rest => flag_locked held rest
  end.

(** What [fork] runs, with the three handlers that [qb_tsafe_init]
    registers through [pthread_atfork]: the prepare handler before the
    process is duplicated, then the parent handler in the one process and
    the child handler in the other. *)
Definition fork_in_parent : M unit := atfork_prepare ;; atfork_parent.
Definition fork_in_child : M unit := atfork_prepare ;; atfork_child.

(** Calling the real implementation of a banned entry point directly,
    with the arguments of the call. *)
Definition direct (b : banned_call) (w : world) : cval * world :=
  call_ptr (resolved (symbol b)) (arguments b) w.

(** The entry points that stand in front of a real implementation, with
    the name it is resolved under. *)
Definition real_symbol (c : call) : option string :=
  match c with
  | c_pthread_create _ _ _ _ => Some "pthread_create"
  | c_getenv _ => Some "getenv"
  | c_banned b => Some (symbol b)
  | _ => None
  end.

Definition is_init (c : call) : bool :=
  match c with
  | c_qb_tsafe_init _ => true
  | _ => false
  end.

Definition is_pthread_create (c : call) : bool :=
  match c with
  | c_pthread_create _ _ _ _ => true
  | _ => false
  end.

(** ** The environment vector, as the specification reads it *)

(** The segment of an entry before its first [=]. *)
Fixpoint name_of (e : string) : string :=
  match e with
  | EmptyString => EmptyString
  | String a r =>
      if Ascii.eqb a "="%char then EmptyString else String a (name_of r)
  end.

(** The rest of an entry after its first [=], when it has one. *)
Fixpoint value_of (e : string) : option string :=
  match e with
  | EmptyString => None
  | String a r => if Ascii.eqb a "="%char then Some r else value_of r
  end.

Definition has_eq (e : string) : Prop := value_of e <> None.

(** The index of the first entry named [name]. *)
Fixpoint first_match (name : string) (env : list string) : option nat :=
  match env with
  | [] => None
  | e :: rest =>
      if String.eqb (name_of e) name then Some O
      else option_map S (first_match name rest)
  end.

(** The value an environment vector binds a name to: that of the first
    entry with that name. *)
Definition captured (envp : list string) (name : string) : option string :=
  match first_match name envp with
  | Some i =>
      match nth_error envp i with
      | Some e => value_of e
      | None => None
      end
  | None => None
  end.

(** What a pointer into the snapshot reads. *)
Definition deref (s : proc) (v : cval) : option string :=
  match v, coro_environ s with
  | Venv entry off, Some env =>
      match nth_error env (Z.to_nat entry) with
      | Some e => Some (string_from (Z.to_nat off) e)
      | None => None
      end
  | _, _ => None
  end.

(** ** Invariants of computations

    [preserves Inv Dead m]: from a state in [Inv], [m] returns in a state
    in [Inv] or halts, for the reason [h], in a state in [Dead h]. *)
Definition preserves {A : Type} (Inv : proc -> Prop)
           (Dead : halt -> proc -> Prop) (m : M A) : Prop :=
  forall s, Inv s ->
    match m s with
    | (Ok _, s') => Inv s'
    | (Halt h, s') => Dead h s'
    end.

(** The building blocks of the entry points keep the invariant. *)
Record respected (Inv : proc -> Prop) (Dead : halt -> proc -> Prop)
  : Prop := {
  r_dead : forall h s, Inv s -> Dead h s;
  r_read_inited : preserves Inv Dead read_inited;
  r_read_disabled : preserves Inv Dead read_disabled;
  r_forward : forall f args, preserves Inv Dead (forward f args);
  r_assert0 : preserves Inv Dead assert0;
  r_on : preserves Inv Dead qb_tsafe_on;
  r_off : preserves Inv Dead qb_tsafe_off
}.

(** The flag reads of the test [!tsafe_inited || tsafe_disabled]. *)
Definition gate_reads (s : proc) : list event :=
  if tsafe_inited s =? 0 then [EvReadInited]
  else [EvReadInited; EvReadDisabled].

(** The resolver call of a forwarding, if the pointer is still null. *)
Definition lookup_events (f : string) (s : proc) : list event :=
  if real_ s f =? NULL then [EvDlsym f] else [].

(** The events of [qb_tsafe_on] when [pthread_create] finds the library
    initialised and the flag set. *)
Definition flip_events (s : proc) : list event :=
  if negb (tsafe_inited s =? 0) && negb (tsafe_disabled s =? 0)
  then [EvLock; EvWriteDisabled 0; EvUnlock]
  else [].

(** ** Notions used in the proofs *)

(** The pointer [forward f] calls through, and the state it calls in:
    the pointer of [f] has been looked up if it was null. *)
Definition target (f : string) (s : proc) : ptr :=
  if real_ s f =? NULL then resolved f else real_ s f.

Definition looked_up (f : string) (s : proc) : proc :=
  if real_ s f =? NULL
  then set_real f (resolved f) (log [EvDlsym f] s)
  else s.

(** The state [qb_tsafe_init] returns in. *)
Definition inited_with (envp : list string) (s : proc) : proc :=
  log [EvWriteInited 1]
    (set_inited 1
       (log [EvWriteDisabled 1]
          (set_disabled 1
             (log [EvAtfork]
                (if HAVE_PTHREAD_SPIN_LOCK
                 then set_mutex false
                        (set_environ (Some envp)
                           (log (EvMalloc (sizeof_ptr * count_entries envp 1)
                                   :: map EvStrdup envp) s))
                 else set_environ (Some envp)
                        (log (EvMalloc (sizeof_ptr * count_entries envp 1)
                                :: map EvStrdup envp) s)))))).

(** What the child handler does to the flag, and what the prepare and
    the child handler log. *)
Definition child_flag (s : proc) : Z :=
  if tsafe_inited s =? 0 then tsafe_disabled s
  else if tsafe_disabled s =? 0 then 1 else tsafe_disabled s.

Definition child_events (s : proc) : list event :=
  if tsafe_inited s =? 0 then [EvLock; EvReadInited; EvUnlock]
  else if tsafe_disabled s =? 0
       then [EvLock; EvReadInited; EvReadDisabled; EvWriteDisabled 1;
             EvUnlock]
       else [EvLock; EvReadInited; EvReadDisabled; EvUnlock].

(** The arguments a wrapper hands to the real implementation. *)
Definition handed_on (b : banned_call) : list cval :=
  match b with
  | c_crypt key salt => [salt]
  | _ => arguments b
  end.

Definition handed (c : call) : list cval :=
  match c with
  | c_pthread_create thread attr start_routine arg =>
      [thread; attr; start_routine; arg]
  | c_getenv name => [Vstr name]
  | c_banned b => handed_on b
  | _ => []
  end.

(** The one wrapper whose assertion follows the forwarded call. *)
Definition asserts_after_call (c : call) : bool :=
  match c with
  | c_banned c_setgrent => negb QB_BSD
  | _ => false
  end.

(** The entry points that follow the common pattern with all their
    arguments. *)
Definition regular (b : banned_call) : bool :=
  match b with
  | c_crypt _ _ => false
  | c_setgrent => QB_BSD
  | _ => true
  end.

(** The invariants: the lock is free; nothing is known (of a halted
    process); the snapshot is [envp]. *)
Definition lock_free (s : proc) : Prop := tsafe_enabled_mutex s = false.

Definition anything (h : halt) (s : proc) : Prop := True.

Definition snapshot_is (envp : list string) (s : proc) : Prop :=
  coro_environ s = Some envp.

(** Each name went to the resolver at most once, and not at all while
    its pointer is still null; in a halted process, at most once. *)
Definition resolved_once (s : proc) : Prop :=
  forall f,
    (count_dlsym f (trace s) <= 1)%nat
    /\ (real_ s f = NULL -> count_dlsym f (trace s) = O).

Definition resolved_once_dead (h : halt) (s : proc) : Prop :=
  forall f, (count_dlsym f (trace s) <= 1)%nat.

(** [s'] continues the log of [s]. *)
Definition extends (s s' : proc) : Prop :=
  exists es, trace s' = trace s ++ es.

(** [s] continues the log of [s0] without a resolver call for [f]. *)
Definition quiet_since (s0 : proc) (f : string) (s : proc) : Prop :=
  exists es, trace s = trace s0 ++ es /\ count_dlsym f es = O.

(** ** Further notions: the lock around calls, and who writes the flag *)

(** Whether the lock is held where a log ends. *)
Fixpoint held_after (held : bool) (tr : list event) : bool :=
  match tr with
  | [] => held
  | EvLock :: rest => held_after true rest
  | EvUnlock :: rest => held_after false rest
  | _ :: rest => held_after held rest
  end.

(** No resolver call and no call of a real function happens between an
    [EvLock] and the next [EvUnlock]. *)
Fixpoint calls_unlocked (held : bool) (tr : list event) : bool :=
  match tr with
  | [] => true
  | EvLock :: rest => calls_unlocked true rest
  | EvUnlock :: rest => calls_unlocked false rest
  | EvDlsym _ :: rest => negb held && calls_unlocked held rest
  | EvCall _ _ :: rest => negb held && calls_unlocked held rest
  | _ :: rest => calls_unlocked held rest
  end.

Definition lock_outside_calls (s : proc) : Prop :=
  held_after false (trace s) = false
  /\ calls_unlocked false (trace s) = true.

(** The calls that contain a write of [tsafe_disabled]. *)
Definition may_write_flag (c : call) : bool :=
  match c with
  | c_qb_tsafe_init _ => true
  | c_qb_tsafe_on => true
  | c_qb_tsafe_off => true
  | c_pthread_create _ _ _ _ => true
  | _ => false
  end.

(** The entry points whose forwarding is [return real_f(args);] with
    all the arguments of the call. *)
Definition forwards_plainly (c : call) : bool :=
  match c with
  | c_pthread_create _ _ _ _ => true
  | c_getenv _ => true
  | c_banned b => regular b
  | _ => false
  end.

End Tsafe.

Notation "x <- m ;; k" := (bind m (fun x => k))
  (at level 61, m at next level, right associativity).
Notation "m ;; k" := (bind m (fun _ => k))
  (at level 61, right associativity).

(** ** A process on the demonstration platform *)

Definition demo_envp : list string := ["PATH=/bin"; "HOME=/root"].

Definition demo_fresh : @proc demo_platform := @initial demo_platform [].

Definition demo_inited : @proc demo_platform :=
  Eval vm_compute in snd (@qb_tsafe_init demo_platform demo_envp demo_fresh).

(** The real [setenv] is reached while the gate is still disabled and
    rebinds [PATH]; the thread creation then enables the gate. *)
Definition demo_calls : list call :=
  [c_banned (c_setenv (Vstr "PATH") (Vstr "/usr/bin") (Vint 1));
   c_pthread_create (Vobj 1) Vnull (Vobj 2) Vnull].

Definition demo_enabled : @proc demo_platform :=
  Eval vm_compute in
    snd (@run demo_platform (c_qb_tsafe_init demo_envp :: demo_calls)
           demo_fresh).

(** [qb_tsafe_on] called in a process that was never initialised. *)
Definition demo_on : @proc demo_platform :=
  Eval vm_compute in snd (@qb_tsafe_on demo_platform demo_fresh).

Definition demo_spawn : call := c_pthread_create (Vobj 1) Vnull (Vobj 2) Vnull.

Section Properties.
Context {P : Platform}.

(** ** Basic facts about the monad and the log *)

Lemma log_log (a b : list event) (s : proc) :
  log b (log a s) = log (a ++ b) s.
Proof.
  destruct s; unfold log; simpl. now rewrite app_assoc.
Qed.

Lemma log_nil (s : proc) : log [] s = s.
Proof.
  destruct s; unfold log; simpl. now rewrite app_nil_r.
Qed.

Lemma gate_off_uninit (s : proc) :
  tsafe_inited s = 0 ->
  gate_off s = (Ok true, log [EvReadInited] s).
Proof.
  intros Hi. unfold gate_off, bind, read_inited, ret. now rewrite Hi.
Qed.

Lemma gate_off_init (s : proc) :
  tsafe_inited s <> 0 ->
  gate_off s
  = (Ok (negb (tsafe_disabled s =? 0)), log [EvReadInited; EvReadDisabled] s).
Proof.
  intros Hi. unfold gate_off, bind, read_inited, read_disabled, ret.
  destruct (Z.eqb_spec (tsafe_inited s) 0) as [E | _]; [contradiction |].
  simpl. now rewrite log_log.
Qed.

Lemma banned_enabled (f : string) (args : list cval) (d : cval) (s : proc) :
  tsafe_inited s <> 0 -> tsafe_disabled s = 0 ->
  banned f args d s
  = (Halt Aborted, log [EvReadInited; EvReadDisabled; EvAssert] s).
Proof.
  intros Hi Hd. unfold banned, bind. rewrite (gate_off_init s Hi), Hd. simpl.
  now rewrite log_log.
Qed.

Lemma setgrent_enabled (s : proc) :
  tsafe_inited s <> 0 -> tsafe_disabled s = 0 ->
  setgrent s
  = (Halt Aborted, log [EvReadInited; EvReadDisabled; EvAssert] s).
Proof.
  intros Hi Hd. unfold setgrent. destruct QB_BSD.
  - now apply banned_enabled.
  - unfold bind. rewrite (gate_off_init s Hi), Hd. simpl.
    now rewrite log_log.
Qed.

(** ** The abort-when-enabled policy *)

(** C1.  Every banned entry point, called while the library is
    initialised and [tsafe_disabled] is 0, ends in the failed assertion,
    and the process is then exactly as before the call but for the log
    of the two flag reads and the assertion: no symbol was resolved, no
    cached pointer was written or called, the world is untouched. *)
Theorem banned_aborts_when_enabled (b : banned_call) (s : proc) :
  tsafe_inited s <> 0 ->
  tsafe_disabled s = 0 ->
  exec_banned b s
  = (Halt Aborted, log [EvReadInited; EvReadDisabled; EvAssert] s).
Proof.
  intros Hi Hd.
  destruct b; simpl;
    first [now apply banned_enabled | now apply setgrent_enabled].
Qed.

(** ** What forwarding does *)

Lemma forward_cases (f : string) (args : list cval) (s : proc) :
  forward f args s
  = if target f s =? NULL then (Halt Faulted, looked_up f s)
    else (Ok (fst (call_ptr (target f s) args (libc s))),
          set_libc (snd (call_ptr (target f s) args (libc s)))
                   (log [EvCall (target f s) args] (looked_up f s))).
Proof.
  unfold forward, target, looked_up. unfold bind at 1. unfold resolve_once.
  destruct (real_ s f =? NULL) eqn:E.
  - unfold _get_real_func_, bind, emit, ret. fold (resolved f).
    simpl real_. rewrite String.eqb_refl. unfold call_real.
    destruct (resolved f =? NULL); [reflexivity |]. simpl libc.
    destruct (call_ptr (resolved f) args (libc s)); reflexivity.
  - unfold call_real. rewrite E.
    destruct (call_ptr (real_ s f) args (libc s)); reflexivity.
Qed.

Lemma looked_up_flags (f : string) (s : proc) :
  tsafe_disabled (looked_up f s) = tsafe_disabled s
  /\ tsafe_inited (looked_up f s) = tsafe_inited s
  /\ coro_environ (looked_up f s) = coro_environ s
  /\ tsafe_enabled_mutex (looked_up f s) = tsafe_enabled_mutex s
  /\ libc (looked_up f s) = libc s.
Proof.
  unfold looked_up. destruct (real_ s f =? NULL); simpl; repeat split.
Qed.

Lemma target_coherent (f : string) (s : proc) :
  coherent s -> target f s = resolved f.
Proof.
  intros Hc. unfold target. destruct (Z.eqb_spec (real_ s f) NULL) as [E | E].
  - reflexivity.
  - destruct (Hc f); [contradiction | assumption].
Qed.

(** ** Invariants are kept by every entry point *)

Lemma preserves_ret (Inv : proc -> Prop) (Dead : halt -> proc -> Prop)
      (A : Type) (a : A) :
  preserves Inv Dead (ret a).
Proof. intros s Hs. exact Hs. Qed.

Lemma preserves_bind (Inv : proc -> Prop) (Dead : halt -> proc -> Prop)
      (A B : Type) (m : M A) (k : A -> M B) :
  preserves Inv Dead m ->
  (forall a, preserves Inv Dead (k a)) ->
  preserves Inv Dead (bind m k).
Proof.
  intros Hm Hk s Hs. unfold bind. specialize (Hm s Hs).
  destruct (m s) as [[a | h] s1]; [now apply Hk | exact Hm].
Qed.

Lemma preserves_stop (Inv : proc -> Prop) (Dead : halt -> proc -> Prop)
      (A : Type) (h : halt) :
  (forall h s, Inv s -> Dead h s) ->
  preserves Inv Dead (stop (A:=A) h).
Proof. intros Hd s Hs. now apply Hd. Qed.

Section Respected.
Variable Inv : proc -> Prop.
Variable Dead : halt -> proc -> Prop.
Hypothesis R : respected Inv Dead.

Ltac blocks :=
  repeat first
    [ apply preserves_ret
    | apply (r_read_inited _ _ R)
    | apply (r_read_disabled _ _ R)
    | apply (r_forward _ _ R)
    | apply (r_assert0 _ _ R)
    | apply (r_on _ _ R)
    | apply (r_off _ _ R)
    | apply preserves_bind; [| intros ?]
    | match goal with
      | |- preserves _ _ (if ?b then _ else _) => destruct b
      end ].

Lemma gate_off_preserves : preserves Inv Dead gate_off.
Proof. unfold gate_off. blocks. Qed.

Lemma banned_preserves (f : string) (args : list cval) (d : cval) :
  preserves Inv Dead (banned f args d).
Proof.
  unfold banned. apply preserves_bind; [apply gate_off_preserves | intros off].
  blocks.
Qed.

Lemma setgrent_preserves : preserves Inv Dead setgrent.
Proof.
  unfold setgrent. destruct QB_BSD; [apply banned_preserves |].
  apply preserves_bind; [apply gate_off_preserves | intros off]. blocks.
Qed.

Lemma exec_banned_preserves (b : banned_call) :
  preserves Inv Dead (exec_banned b).
Proof.
  destruct b; simpl;
    first [apply banned_preserves | apply setgrent_preserves].
Qed.

Lemma pthread_create_preserves (thread attr start_routine arg : cval) :
  preserves Inv Dead (pthread_create thread attr start_routine arg).
Proof. unfold pthread_create. blocks. Qed.

Lemma getenv_preserves (name : string) : preserves Inv Dead (getenv name).
Proof.
  unfold getenv. apply preserves_bind; [apply gate_off_preserves | intros off].
  destruct off; [blocks |].
  intros s Hs. pose proof (fun h => r_dead _ _ R h s Hs) as Hd.
  destruct (coro_environ s) as [env |]; [| apply Hd].
  destruct (getenv_scan name env 0) as [[entry |] | h]; try assumption;
    try apply Hd.
  destruct (nth_error env (Z.to_nat entry)) as [e |]; [| apply Hd].
  destruct (strchr e "="%char); [assumption | apply Hd].
Qed.

Lemma exec_preserves (c : call) :
  (forall envp, preserves Inv Dead (qb_tsafe_init envp)) ->
  preserves Inv Dead (exec c).
Proof.
  intros Hinit. destruct c; simpl.
  - apply preserves_bind; [apply Hinit | intros ?; apply preserves_ret].
  - blocks.
  - blocks.
  - apply pthread_create_preserves.
  - apply getenv_preserves.
  - unfold catgets. apply preserves_ret.
  - apply exec_banned_preserves.
Qed.

Lemma exec_preserves_later (c : call) :
  is_init c = false ->
  preserves Inv Dead (exec c).
Proof.
  intros Hc. destruct c; simpl; try discriminate.
  - blocks.
  - blocks.
  - apply pthread_create_preserves.
  - apply getenv_preserves.
  - unfold catgets. apply preserves_ret.
  - apply exec_banned_preserves.
Qed.

Lemma run_preserves (cs : list call) (s : proc) :
  (forall envp, preserves Inv Dead (qb_tsafe_init envp)) ->
  Inv s ->
  match run cs s with
  | (None, s') => Inv s'
  | (Some h, s') => Dead h s'
  end.
Proof.
  intros Hinit. revert s. induction cs as [| c cs IH]; intros s Hs; simpl.
  - exact Hs.
  - pose proof (exec_preserves c Hinit s Hs) as Hc.
    destruct (exec c s) as [[v | h] s1]; [now apply IH | exact Hc].
Qed.

Lemma run_preserves_later (cs : list call) (s : proc) :
  forallb (fun c => negb (is_init c)) cs = true ->
  Inv s ->
  match run cs s with
  | (None, s') => Inv s'
  | (Some h, s') => Dead h s'
  end.
Proof.
  revert s. induction cs as [| c cs IH]; intros s Hcs Hs; simpl.
  - exact Hs.
  - simpl in Hcs. apply andb_true_iff in Hcs. destruct Hcs as [Hc Hcs].
    apply negb_true_iff in Hc.
    pose proof (exec_preserves_later c Hc s Hs) as Hx.
    destruct (exec c s) as [[v | h] s1]; [now apply IH | exact Hx].
Qed.

End Respected.

(** ** Four invariants *)

Lemma lock_free_respected : respected lock_free anything.
Proof.
  split; unfold preserves, lock_free, anything; intros; try exact I.
  - assumption.
  - assumption.
  - rewrite forward_cases. destruct (_ =? NULL); [exact I |]. simpl.
    now destruct (looked_up_flags f s) as (_ & _ & _ & -> & _).
  - unfold qb_tsafe_on, bind, tsafe_lock. rewrite H. reflexivity.
  - unfold qb_tsafe_off, bind, tsafe_lock. rewrite H. reflexivity.
Qed.

Lemma dup_entries_eval (envp : list string) (s : proc) :
  dup_entries envp s = (Ok envp, log (map EvStrdup envp) s).
Proof.
  revert s. induction envp as [| e rest IH]; intros s; simpl.
  - unfold ret. now rewrite log_nil.
  - unfold bind, emit. rewrite IH. unfold ret. now rewrite log_log.
Qed.

Lemma count_entries_eval (envp : list string) (size : Z) :
  count_entries envp size = size + Z.of_nat (List.length envp).
Proof.
  revert size. induction envp as [| e rest IH]; intros size; simpl List.length.
  - simpl. lia.
  - simpl count_entries. rewrite IH. lia.
Qed.

Lemma qb_tsafe_init_cases (envp : list string) (s : proc) :
  qb_tsafe_init envp s
  = if INT32_MAX <? count_entries envp 1 then (Halt Undefined, s)
    else (Ok tt, inited_with envp s).
Proof.
  unfold qb_tsafe_init, inited_with.
  destruct (INT32_MAX <? count_entries envp 1); [reflexivity |].
  unfold bind at 1. unfold emit at 1. unfold bind at 1.
  rewrite dup_entries_eval, log_log. simpl app.
  destruct HAVE_PTHREAD_SPIN_LOCK; reflexivity.
Qed.

Lemma lock_free_init (envp : list string) :
  preserves lock_free anything (qb_tsafe_init envp).
Proof.
  intros s Hs. rewrite qb_tsafe_init_cases.
  destruct (_ <? _); [exact I |]. unfold inited_with, lock_free in *.
  destruct HAVE_PTHREAD_SPIN_LOCK; simpl; [reflexivity | assumption].
Qed.

Lemma coherent_respected : respected coherent anything.
Proof.
  split; unfold preserves, anything; intros; try exact I.
  - assumption.
  - assumption.
  - rewrite forward_cases. destruct (_ =? NULL); [exact I |].
    intros g. simpl. unfold looked_up.
    destruct (real_ s f =? NULL); simpl; [| apply H].
    destruct (String.eqb_spec g f) as [-> | _]; [now right | apply H].
  - unfold qb_tsafe_on, bind, tsafe_lock.
    destruct (tsafe_enabled_mutex s); [exact I | exact H].
  - unfold qb_tsafe_off, bind, tsafe_lock.
    destruct (tsafe_enabled_mutex s); [exact I | exact H].
Qed.

Lemma coherent_init (envp : list string) :
  preserves coherent anything (qb_tsafe_init envp).
Proof.
  intros s Hs. rewrite qb_tsafe_init_cases.
  destruct (_ <? _); [exact I |]. unfold inited_with.
  destruct HAVE_PTHREAD_SPIN_LOCK; exact Hs.
Qed.

Lemma count_dlsym_app (f : string) (a b : list event) :
  count_dlsym f (a ++ b) = (count_dlsym f a + count_dlsym f b)%nat.
Proof.
  induction a as [| e a IH]; simpl; [reflexivity |].
  destruct e; try exact IH. destruct (String.eqb func_name f); simpl; congruence.
Qed.

Lemma count_dlsym_strdup (f : string) (l : list string) :
  count_dlsym f (map EvStrdup l) = O.
Proof. induction l; simpl; auto. Qed.

Lemma resolved_once_log (es : list event) (s : proc) :
  (forall f, count_dlsym f es = O) ->
  resolved_once s -> resolved_once (log es s).
Proof.
  intros Hes Hs f. simpl. rewrite count_dlsym_app, Hes, Nat.add_0_r.
  apply Hs.
Qed.

Lemma resolved_once_respected : respected resolved_once resolved_once_dead.
Proof.
  split; unfold preserves; intros.
  - intros f. apply H.
  - now apply resolved_once_log.
  - now apply resolved_once_log.
  - rewrite forward_cases. unfold target, looked_up.
    destruct (Z.eqb_spec (real_ s f) NULL) as [E | E].
    + destruct (Z.eqb_spec (resolved f) NULL) as [R0 | R0]; intros g; simpl;
        repeat rewrite count_dlsym_app; simpl;
        destruct (H g) as [H1 H2];
        destruct (String.eqb_spec g f) as [-> | N].
      * rewrite String.eqb_refl, (H2 E). simpl. lia.
      * destruct (String.eqb_spec f g) as [-> | _]; [contradiction | lia].
      * rewrite String.eqb_refl, (H2 E). simpl. split; [lia | contradiction].
      * destruct (String.eqb_spec f g) as [-> | _]; [contradiction |].
        simpl. split; [lia |]. intros Hg. rewrite (H2 Hg). reflexivity.
    + destruct (Z.eqb_spec (real_ s f) NULL) as [E' | _]; [contradiction |].
      intros g. simpl. rewrite count_dlsym_app. simpl. rewrite Nat.add_0_r.
      apply H.
  - intros f. simpl. rewrite count_dlsym_app. simpl. rewrite Nat.add_0_r.
    apply H.
  - unfold qb_tsafe_on, bind, tsafe_lock.
    destruct (tsafe_enabled_mutex s); [intros f; apply H |].
    intros f. simpl. repeat rewrite count_dlsym_app. simpl.
    repeat rewrite Nat.add_0_r. apply H.
  - unfold qb_tsafe_off, bind, tsafe_lock.
    destruct (tsafe_enabled_mutex s); [intros f; apply H |].
    intros f. simpl. repeat rewrite count_dlsym_app. simpl.
    repeat rewrite Nat.add_0_r. apply H.
Qed.

Lemma resolved_once_init (envp : list string) :
  preserves resolved_once resolved_once_dead (qb_tsafe_init envp).
Proof.
  intros s Hs. rewrite qb_tsafe_init_cases.
  destruct (_ <? _); [intros f; apply Hs |]. unfold inited_with.
  intros f. destruct HAVE_PTHREAD_SPIN_LOCK; simpl;
    repeat rewrite count_dlsym_app; simpl; rewrite count_dlsym_strdup;
    simpl; repeat rewrite Nat.add_0_r; apply Hs.
Qed.

Lemma resolved_once_initial (w : world) : resolved_once (initial w).
Proof. intros f. simpl. split; [lia | reflexivity]. Qed.

Lemma quiet_since_refl (s0 : proc) (f : string) : quiet_since s0 f s0.
Proof. exists []. now rewrite app_nil_r. Qed.

Lemma quiet_since_log (s0 s : proc) (f : string) (es : list event) :
  count_dlsym f es = O ->
  quiet_since s0 f s -> quiet_since s0 f (log es s).
Proof.
  intros Hes (es0 & Ht & Hc). exists (es0 ++ es). simpl.
  rewrite Ht, app_assoc, count_dlsym_app, Hc, Hes. auto.
Qed.

Lemma quiet_since_same_trace (s0 s s' : proc) (f : string) :
  trace s' = trace s ->
  quiet_since s0 f s -> quiet_since s0 f s'.
Proof. intros Ht (es & H1 & H2). exists es. now rewrite Ht. Qed.

Lemma emitted_quiet (A : Type) (m : M A) (s : proc) (f : string) :
  quiet_since s f (snd (m s)) -> count_dlsym f (emitted m s) = O.
Proof.
  intros (es & Ht & Hc). unfold emitted. rewrite Ht.
  rewrite skipn_app, skipn_all, Nat.sub_diag. simpl. exact Hc.
Qed.

(** Once the pointer of [f] is set, nothing resolves [f] again. *)
Lemma cache_hit_respected (s0 : proc) (f : string) :
  respected (fun s => real_ s f <> NULL /\ quiet_since s0 f s)
            (fun _ s => quiet_since s0 f s).
Proof.
  split; unfold preserves.
  - intros h s [_ H]. exact H.
  - intros s [H1 H2]. split; [exact H1 | now apply quiet_since_log].
  - intros s [H1 H2]. split; [exact H1 | now apply quiet_since_log].
  - intros g args s [H1 H2]. rewrite forward_cases. unfold target, looked_up.
    destruct (Z.eqb_spec (real_ s g) NULL) as [E | E].
    + assert (Hgf : String.eqb f g = false).
      { destruct (String.eqb_spec f g) as [-> | _]; [contradiction | auto]. }
      assert (Hfg : String.eqb g f = false) by now rewrite String.eqb_sym.
      assert (Hq : quiet_since s0 f
                     (set_real g (resolved g) (log [EvDlsym g] s))).
      { apply (quiet_since_same_trace s0 (log [EvDlsym g] s)); [reflexivity |].
        apply quiet_since_log; [simpl; now rewrite Hfg | exact H2]. }
      destruct (resolved g =? NULL); [exact Hq |]. split.
      * simpl. now rewrite Hgf.
      * apply (quiet_since_same_trace s0
                 (log [EvCall (resolved g) args]
                    (set_real g (resolved g) (log [EvDlsym g] s))));
          [reflexivity | now apply quiet_since_log].
    + destruct (Z.eqb_spec (real_ s g) NULL) as [E' | _]; [contradiction |].
      split; [exact H1 |].
      apply (quiet_since_same_trace s0 (log [EvCall (real_ s g) args] s));
        [reflexivity | now apply quiet_since_log].
  - intros s [H1 H2]. simpl. now apply quiet_since_log.
  - intros s [H1 H2]. unfold qb_tsafe_on, bind, tsafe_lock.
    destruct (tsafe_enabled_mutex s); [exact H2 |]. split; [exact H1 |].
    destruct H2 as (es & Ht & Hc).
    exists (es ++ [EvLock; EvWriteDisabled 0; EvUnlock]). simpl.
    rewrite Ht, count_dlsym_app, Hc. simpl.
    repeat rewrite <- app_assoc. auto.
  - intros s [H1 H2]. unfold qb_tsafe_off, bind, tsafe_lock.
    destruct (tsafe_enabled_mutex s); [exact H2 |]. split; [exact H1 |].
    destruct H2 as (es & Ht & Hc).
    exists (es ++ [EvLock; EvWriteDisabled 1; EvUnlock]). simpl.
    rewrite Ht, count_dlsym_app, Hc. simpl.
    repeat rewrite <- app_assoc. auto.
Qed.

Lemma quiet_init (s0 : proc) (f : string) (envp : list string) (s : proc) :
  quiet_since s0 f s ->
  quiet_since s0 f (snd (qb_tsafe_init envp s)).
Proof.
  intros H. rewrite qb_tsafe_init_cases.
  destruct (_ <? _); [exact H |]. unfold inited_with.
  destruct H as (es & Ht & Hc).
  exists (es ++ (EvMalloc (sizeof_ptr * count_entries envp 1)
                   :: map EvStrdup envp)
             ++ [EvAtfork; EvWriteDisabled 1; EvWriteInited 1]).
  split.
  - destruct HAVE_PTHREAD_SPIN_LOCK; simpl; rewrite Ht;
      repeat rewrite <- app_assoc; reflexivity.
  - repeat rewrite count_dlsym_app. rewrite Hc. simpl.
    rewrite count_dlsym_strdup. reflexivity.
Qed.

(** When [f] does not resolve, a run that hands [f] to the resolver
    faults, with the pointer of [f] still null. *)
Lemma failure_respected (s0 : proc) (f : string) :
  resolved f = NULL ->
  respected (quiet_since s0 f)
            (fun h s => quiet_since s0 f s
                        \/ (h = Faulted /\ real_ s f = NULL)).
Proof.
  intros Hf. split; unfold preserves.
  - intros h s H. now left.
  - intros s H. now apply quiet_since_log.
  - intros s H. now apply quiet_since_log.
  - intros g args s H. rewrite forward_cases. unfold target, looked_up.
    destruct (Z.eqb_spec (real_ s g) NULL) as [E | E].
    + destruct (String.eqb_spec g f) as [-> | N].
      * rewrite Hf. simpl. right. split; [reflexivity |]. simpl.
        now rewrite String.eqb_refl.
      * assert (Hgf : String.eqb g f = false).
        { destruct (String.eqb_spec g f) as [-> | _]; [contradiction | auto]. }
        assert (Hq : quiet_since s0 f
                       (set_real g (resolved g) (log [EvDlsym g] s))).
        { apply (quiet_since_same_trace s0 (log [EvDlsym g] s));
            [reflexivity |].
          apply quiet_since_log; [simpl; now rewrite Hgf | exact H]. }
        destruct (resolved g =? NULL); [now left |].
        apply (quiet_since_same_trace s0
                 (log [EvCall (resolved g) args]
                    (set_real g (resolved g) (log [EvDlsym g] s))));
          [reflexivity | now apply quiet_since_log].
    + destruct (Z.eqb_spec (real_ s g) NULL) as [E' | _]; [contradiction |].
      apply (quiet_since_same_trace s0 (log [EvCall (real_ s g) args] s));
        [reflexivity | now apply quiet_since_log].
  - intros s H. left. simpl. now apply quiet_since_log.
  - intros s H. unfold qb_tsafe_on, bind, tsafe_lock.
    destruct (tsafe_enabled_mutex s); [now left |].
    destruct H as (es & Ht & Hc).
    exists (es ++ [EvLock; EvWriteDisabled 0; EvUnlock]). simpl.
    rewrite Ht, count_dlsym_app, Hc. simpl.
    repeat rewrite <- app_assoc. auto.
  - intros s H. unfold qb_tsafe_off, bind, tsafe_lock.
    destruct (tsafe_enabled_mutex s); [now left |].
    destruct H as (es & Ht & Hc).
    exists (es ++ [EvLock; EvWriteDisabled 1; EvUnlock]). simpl.
    rewrite Ht, count_dlsym_app, Hc. simpl.
    repeat rewrite <- app_assoc. auto.
Qed.

(** ** Forwarding while the gate is disabled *)

Lemma emitted_of_trace (A : Type) (m : M A) (s : proc) (es : list event) :
  trace (snd (m s)) = trace s ++ es -> emitted m s = es.
Proof.
  intros H. unfold emitted. rewrite H.
  now rewrite skipn_app, skipn_all, Nat.sub_diag.
Qed.

Lemma gate_off_eval (s : proc) :
  gate_off s = (Ok (negb (gate_enabled s)), log (gate_reads s) s).
Proof.
  unfold gate_enabled, gate_reads.
  destruct (Z.eqb_spec (tsafe_inited s) 0) as [E | E].
  - now rewrite gate_off_uninit.
  - rewrite gate_off_init by assumption. reflexivity.
Qed.

Lemma banned_disabled (f : string) (args : list cval) (d : cval) (s : proc) :
  gate_enabled s = false ->
  banned f args d s = forward f args (log (gate_reads s) s).
Proof.
  intros Hg. unfold banned, bind. now rewrite gate_off_eval, Hg.
Qed.

Lemma forward_resolvable (f : string) (args : list cval) (s : proc) :
  coherent s ->
  resolved f <> NULL ->
  exists s',
    forward f args s = (Ok (fst (call_ptr (resolved f) args (libc s))), s')
    /\ libc s' = snd (call_ptr (resolved f) args (libc s))
    /\ trace s' = trace s ++ lookup_events f s ++ [EvCall (resolved f) args]
    /\ tsafe_disabled s' = tsafe_disabled s
    /\ tsafe_inited s' = tsafe_inited s
    /\ coro_environ s' = coro_environ s
    /\ tsafe_enabled_mutex s' = tsafe_enabled_mutex s
    /\ real_ s' f = resolved f.
Proof.
  intros Hc Hr. rewrite forward_cases, (target_coherent f s Hc).
  destruct (Z.eqb_spec (resolved f) NULL) as [E | _]; [contradiction |].
  eexists. split; [reflexivity |]. unfold looked_up, lookup_events.
  destruct (Z.eqb_spec (real_ s f) NULL) as [E | E]; simpl.
  - rewrite String.eqb_refl, <- app_assoc. repeat split.
  - repeat split. destruct (Hc f); [contradiction | assumption].
Qed.

Lemma coherent_log (es : list event) (s : proc) :
  coherent s -> coherent (log es s).
Proof. intros H f. apply H. Qed.

Lemma banned_forwards (f : string) (args : list cval) (d : cval) (s : proc) :
  gate_enabled s = false ->
  coherent s ->
  resolved f <> NULL ->
  exists s',
    banned f args d s = (Ok (fst (call_ptr (resolved f) args (libc s))), s')
    /\ libc s' = snd (call_ptr (resolved f) args (libc s))
    /\ trace s'
       = trace s ++ gate_reads s ++ lookup_events f s
                 ++ [EvCall (resolved f) args]
    /\ tsafe_disabled s' = tsafe_disabled s
    /\ tsafe_inited s' = tsafe_inited s
    /\ coro_environ s' = coro_environ s
    /\ tsafe_enabled_mutex s' = tsafe_enabled_mutex s.
Proof.
  intros Hg Hc Hr. rewrite banned_disabled by assumption.
  destruct (forward_resolvable f args (log (gate_reads s) s)
              (coherent_log _ s Hc) Hr)
    as (s' & H1 & H2 & H3 & H4 & H5 & H6 & H7 & _).
  exists s'. simpl in *. rewrite <- app_assoc in H3. repeat split; assumption.
Qed.

Lemma regular_shape (b : banned_call) :
  regular b = true ->
  exists d, exec_banned b = banned (symbol b) (arguments b) d.
Proof.
  destruct b; simpl; intros H; try discriminate;
    try (unfold setgrent; rewrite H);
    first [ exists Vnull; reflexivity
          | exists (Vint 0); reflexivity
          | exists Vvoid; reflexivity ].
Qed.

(** While the gate is disabled, a regular entry point returns what the
    real implementation returns and does to the world what it does. *)
Lemma regular_forwards (b : banned_call) (s : proc) :
  regular b = true ->
  gate_enabled s = false ->
  coherent s ->
  resolved (symbol b) <> NULL ->
  fst (exec_banned b s) = Ok (fst (direct b (libc s)))
  /\ libc (snd (exec_banned b s)) = snd (direct b (libc s)).
Proof.
  intros Hb Hg Hc Hr. destruct (regular_shape b Hb) as [d ->].
  destruct (banned_forwards (symbol b) (arguments b) d s Hg Hc Hr)
    as (s' & -> & H2 & _).
  split; [reflexivity | exact H2].
Qed.

(** Every state a process reaches from its start has coherent pointers
    and a free lock: the side conditions of the theorems below hold
    between any two calls. *)
Lemma reached_coherent (w : world) (cs : list call) (s : proc) :
  run cs (initial w) = (None, s) -> coherent s.
Proof.
  intros H.
  pose proof (run_preserves _ _ coherent_respected cs (initial w)
                coherent_init) as Hp.
  rewrite H in Hp. apply Hp. intros f. now left.
Qed.

Lemma reached_lock_free (w : world) (cs : list call) (s : proc) :
  run cs (initial w) = (None, s) -> tsafe_enabled_mutex s = false.
Proof.
  intros H.
  pose proof (run_preserves _ _ lock_free_respected cs (initial w)
                lock_free_init) as Hp.
  rewrite H in Hp. apply Hp. reflexivity.
Qed.

Lemma setgrent_elsewhere (s : proc) :
  QB_BSD = false ->
  setgrent s
  = ((if gate_enabled s then ret tt else forward "setgrent" [] ;; ret tt) ;;
     assert0 ;; ret Vvoid) (log (gate_reads s) s).
Proof.
  intros Hb. unfold setgrent. rewrite Hb. unfold bind at 1.
  rewrite gate_off_eval. destruct (gate_enabled s); reflexivity.
Qed.

(** C2, where the code departs from it.  On a build that is not BSD,
    [setgrent()], called while the gate is disabled, calls the real
    [setgrent] and then fails the assertion all the same. *)
Theorem setgrent_aborts_while_disabled (s : proc) :
  QB_BSD = false ->
  gate_enabled s = false ->
  coherent s ->
  resolved "setgrent" <> NULL ->
  fst (exec_banned c_setgrent s) = Halt Aborted
  /\ libc (snd (exec_banned c_setgrent s))
     = snd (call_ptr (resolved "setgrent") [] (libc s))
  /\ emitted (exec_banned c_setgrent) s
     = gate_reads s ++ lookup_events "setgrent" s
                    ++ [EvCall (resolved "setgrent") []; EvAssert].
Proof.
  intros Hb Hg Hc Hr. simpl exec_banned.
  destruct (forward_resolvable "setgrent" [] (log (gate_reads s) s)
              (coherent_log _ s Hc) Hr)
    as (s' & H1 & H2 & H3 & _).
  assert (E : setgrent s = (Halt Aborted, log [EvAssert] s')).
  { rewrite (setgrent_elsewhere s Hb), Hg. unfold bind. rewrite H1.
    reflexivity. }
  split; [now rewrite E |]. split; [now rewrite E |].
  apply emitted_of_trace. change (exec_banned c_setgrent) with setgrent.
  rewrite E. simpl. rewrite H3. simpl.
  repeat rewrite <- app_assoc. reflexivity.
Qed.

(** The non-BSD [setgrent] while the gate is disabled: the forwarded call
    returns, and the assertion follows it. *)
Lemma setgrent_forwards_then_aborts (s : proc) :
  QB_BSD = false ->
  gate_enabled s = false ->
  coherent s ->
  resolved "setgrent" <> NULL ->
  exists s',
    setgrent s = (Halt Aborted, log [EvAssert] s')
    /\ libc s' = snd (call_ptr (resolved "setgrent") [] (libc s))
    /\ trace s'
       = trace s ++ gate_reads s ++ lookup_events "setgrent" s
           ++ [EvCall (resolved "setgrent") []].
Proof.
  intros Hb Hg Hc Hr.
  destruct (forward_resolvable "setgrent" [] (log (gate_reads s) s)
              (coherent_log _ s Hc) Hr)
    as (s' & H1 & H2 & H3 & _).
  exists s'. split; [| split].
  - rewrite (setgrent_elsewhere s Hb), Hg. unfold bind. rewrite H1.
    reflexivity.
  - exact H2.
  - simpl in H3. rewrite H3. now rewrite <- app_assoc.
Qed.

(** C3, where the code departs from it.  On a build that is not BSD,
    [setgrent()], called while the gate is disabled, is not the real
    [setgrent] called directly: the real function is called, with the
    same (empty) argument list, and the world is what it makes of it,
    but where the direct call returns the wrapper ends in the failed
    assertion. *)
Theorem setgrent_is_not_the_real_call (s : proc) :
  QB_BSD = false ->
  gate_enabled s = false ->
  coherent s ->
  resolved "setgrent" <> NULL ->
  libc (snd (exec_banned c_setgrent s)) = snd (direct c_setgrent (libc s))
  /\ fst (exec_banned c_setgrent s) = Halt Aborted
  /\ fst (exec_banned c_setgrent s) <> Ok (fst (direct c_setgrent (libc s))).
Proof.
  intros Hb Hg Hc Hr. simpl exec_banned.
  destruct (setgrent_forwards_then_aborts s Hb Hg Hc Hr) as (s' & E & L & _).
  rewrite E. simpl. split; [exact L |]. split; [reflexivity | discriminate].
Qed.

(** ** Resolution happens once *)

Lemma init_keeps_pointers (envp : list string) (s : proc) :
  real_ (snd (qb_tsafe_init envp s)) = real_ s.
Proof.
  rewrite qb_tsafe_init_cases. destruct (_ <? _); [reflexivity |].
  unfold inited_with. destruct HAVE_PTHREAD_SPIN_LOCK; reflexivity.
Qed.

Lemma cache_hit_init (s0 : proc) (f : string) (envp : list string) :
  preserves (fun s => real_ s f <> NULL /\ quiet_since s0 f s)
            (fun _ s => quiet_since s0 f s)
            (qb_tsafe_init envp).
Proof.
  intros s [H1 H2]. pose proof (quiet_init s0 f envp s H2) as Hq.
  pose proof (init_keeps_pointers envp s) as Hp.
  destruct (qb_tsafe_init envp s) as [[u | h] s1]; simpl in *;
    [split; [now rewrite Hp | exact Hq] | exact Hq].
Qed.

Lemma failure_init (s0 : proc) (f : string) (envp : list string) :
  preserves (quiet_since s0 f)
            (fun h s => quiet_since s0 f s
                        \/ (h = Faulted /\ real_ s f = NULL))
            (qb_tsafe_init envp).
Proof.
  intros s H. pose proof (quiet_init s0 f envp s H) as Hq.
  destruct (qb_tsafe_init envp s) as [[u | h] s1]; simpl in *;
    [exact Hq | now left].
Qed.

(** C7.  In any run of a process from its start, no name is handed to
    the resolver more than once.  A call made while the cached pointer
    of [f] is set does not resolve [f], and the forwarding goes through
    that pointer.  And if [f] does not resolve, a call that hands [f] to
    the resolver ends in the fault of the call through the null pointer,
    which is still null, and the run ends there: no later call can ask
    again. *)
Theorem resolution_at_most_once :
  (forall (w : world) (cs : list call) (f : string),
      (count_dlsym f (trace (snd (run cs (initial w)))) <= 1)%nat)
  /\ (forall (c : call) (s : proc) (f : string),
         real_ s f <> NULL ->
         count_dlsym f (emitted (exec c) s) = O)
  /\ (forall (f : string) (args : list cval) (s : proc),
         real_ s f <> NULL ->
         forward f args s = call_real (real_ s f) args s)
  /\ (forall (c : call) (cs : list call) (s : proc) (f : string),
         resolved f = NULL ->
         count_dlsym f (emitted (exec c) s) <> O ->
         run (c :: cs) s = (Some Faulted, snd (exec c s))
         /\ real_ (snd (exec c s)) f = NULL).
Proof.
  split; [| split; [| split]].
  - intros w cs f.
    pose proof (run_preserves _ _ resolved_once_respected cs (initial w)
                  resolved_once_init (resolved_once_initial w)) as H.
    destruct (run cs (initial w)) as [[h |] s']; simpl; apply H.
  - intros c s f Hf. apply emitted_quiet.
    pose proof (exec_preserves _ _ (cache_hit_respected s f) c
                  (cache_hit_init s f) s
                  (conj Hf (quiet_since_refl s f))) as H.
    destruct (exec c s) as [[v | h] s']; simpl; [apply H | exact H].
  - intros f args s Hf. unfold forward, bind, resolve_once.
    destruct (Z.eqb_spec (real_ s f) NULL); [contradiction | reflexivity].
  - intros c cs s f Hf Hn.
    pose proof (exec_preserves _ _ (failure_respected s f Hf) c
                  (failure_init s f) s (quiet_since_refl s f)) as H.
    pose proof (emitted_quiet _ (exec c) s f) as Hq.
    simpl run. destruct (exec c s) as [[v | h] s']; simpl in *.
    + now specialize (Hq H).
    + destruct H as [H | [-> H]]; [now specialize (Hq H) | now split].
Qed.

(** ** The thread-spawn trigger *)

Lemma forward_flags (f : string) (args : list cval) (s : proc) :
  tsafe_disabled (snd (forward f args s)) = tsafe_disabled s
  /\ tsafe_inited (snd (forward f args s)) = tsafe_inited s
  /\ coro_environ (snd (forward f args s)) = coro_environ s
  /\ tsafe_enabled_mutex (snd (forward f args s)) = tsafe_enabled_mutex s.
Proof.
  rewrite forward_cases.
  destruct (looked_up_flags f s) as (H1 & H2 & H3 & H4 & _).
  destruct (_ =? NULL); simpl; repeat split; assumption.
Qed.

Lemma qb_tsafe_off_eval (s : proc) :
  tsafe_enabled_mutex s = false ->
  qb_tsafe_off s
  = (Ok tt,
     log [EvLock; EvWriteDisabled 1; EvUnlock]
       (set_disabled 1 s)).
Proof.
  intros Hm. destruct s; simpl in Hm; subst.
  unfold qb_tsafe_off, bind, tsafe_lock, write_disabled, tsafe_unlock, log,
    set_disabled, set_mutex; simpl.
  repeat rewrite <- app_assoc. reflexivity.
Qed.

Lemma qb_tsafe_on_eval (s : proc) :
  tsafe_enabled_mutex s = false ->
  qb_tsafe_on s
  = (Ok tt,
     log [EvLock; EvWriteDisabled 0; EvUnlock]
       (set_disabled 0 s)).
Proof.
  intros Hm. destruct s; simpl in Hm; subst.
  unfold qb_tsafe_on, bind, tsafe_lock, write_disabled, tsafe_unlock, log,
    set_disabled, set_mutex; simpl.
  repeat rewrite <- app_assoc. reflexivity.
Qed.

(** [if (tsafe_inited && tsafe_disabled) { qb_tsafe_on(); }] *)
Lemma trigger_cases (s : proc) :
  (i <- read_inited ;;
   if i =? 0 then ret tt
   else d <- read_disabled ;; if d =? 0 then ret tt else qb_tsafe_on) s
  = if tsafe_inited s =? 0 then (Ok tt, log [EvReadInited] s)
    else if tsafe_disabled s =? 0
         then (Ok tt, log [EvReadInited; EvReadDisabled] s)
         else qb_tsafe_on (log [EvReadInited; EvReadDisabled] s).
Proof.
  unfold bind at 1. unfold read_inited. cbv beta iota.
  destruct (tsafe_inited s =? 0); [reflexivity |].
  unfold bind at 1. unfold read_disabled. cbv beta iota.
  cbn [tsafe_disabled log]. rewrite log_log.
  destruct (tsafe_disabled s =? 0); reflexivity.
Qed.

Lemma pthread_create_split (thread attr start_routine arg : cval) (s : proc) :
  pthread_create thread attr start_routine arg s
  = match (i <- read_inited ;;
           if i =? 0 then ret tt
           else d <- read_disabled ;;
                if d =? 0 then ret tt else qb_tsafe_on) s with
    | (Ok _, s1) =>
        forward "pthread_create" [thread; attr; start_routine; arg] s1
    | (Halt h, s1) => (Halt h, s1)
    end.
Proof. reflexivity. Qed.

Lemma pthread_create_cases (thread attr start_routine arg : cval) (s : proc) :
  tsafe_enabled_mutex s = false ->
  exists s1,
    pthread_create thread attr start_routine arg s
    = forward "pthread_create" [thread; attr; start_routine; arg] s1
    /\ tsafe_inited s1 = tsafe_inited s
    /\ tsafe_disabled s1
       = (if tsafe_inited s =? 0 then tsafe_disabled s else 0)
    /\ tsafe_enabled_mutex s1 = false
    /\ real_ s1 = real_ s
    /\ libc s1 = libc s
    /\ coro_environ s1 = coro_environ s
    /\ trace s1 = trace s ++ gate_reads s ++ flip_events s.
Proof.
  intros Hm. rewrite pthread_create_split, trigger_cases.
  unfold gate_reads, flip_events.
  destruct (Z.eqb_spec (tsafe_inited s) 0) as [Ei | Ei].
  - eexists. split; [reflexivity |]. simpl. repeat split; assumption.
  - destruct (Z.eqb_spec (tsafe_disabled s) 0) as [Ed | Ed].
    + eexists. split; [reflexivity |]. simpl.
      repeat rewrite <- app_assoc. repeat split; assumption.
    + rewrite qb_tsafe_on_eval by exact Hm.
      eexists. split; [reflexivity |]. simpl.
      repeat rewrite <- app_assoc. repeat split; assumption.
Qed.

Lemma pthread_create_outcome (thread attr start_routine arg : cval)
      (s : proc) :
  (exists s1,
      pthread_create thread attr start_routine arg s = (Halt Blocked, s1))
  \/ (exists s1,
         pthread_create thread attr start_routine arg s
         = forward "pthread_create" [thread; attr; start_routine; arg] s1).
Proof.
  rewrite pthread_create_split, trigger_cases.
  destruct (tsafe_inited s =? 0); [right; eexists; reflexivity |].
  destruct (tsafe_disabled s =? 0); [right; eexists; reflexivity |].
  unfold qb_tsafe_on, bind, tsafe_lock. cbn [tsafe_enabled_mutex log].
  destruct (tsafe_enabled_mutex s).
  - left. eexists. reflexivity.
  - right. eexists. reflexivity.
Qed.

Lemma pthread_create_flags (thread attr start_routine arg : cval) (s : proc) :
  tsafe_inited s <> 0 ->
  tsafe_enabled_mutex s = false ->
  tsafe_inited (snd (pthread_create thread attr start_routine arg s)) <> 0
  /\ tsafe_disabled (snd (pthread_create thread attr start_routine arg s)) = 0
  /\ tsafe_enabled_mutex
       (snd (pthread_create thread attr start_routine arg s)) = false.
Proof.
  intros Hi Hm.
  destruct (pthread_create_cases thread attr start_routine arg s Hm)
    as (s1 & -> & H1 & H2 & H3 & _).
  destruct (forward_flags "pthread_create"
              [thread; attr; start_routine; arg] s1) as (F1 & F2 & _ & F4).
  rewrite F1, F2, F4, H1, H2, H3.
  destruct (Z.eqb_spec (tsafe_inited s) 0); [contradiction | auto].
Qed.

Lemma pthread_create_run (cs : list call) (s : proc) :
  forallb is_pthread_create cs = true ->
  tsafe_inited s <> 0 ->
  tsafe_disabled s = 0 ->
  tsafe_enabled_mutex s = false ->
  tsafe_inited (snd (run cs s)) <> 0
  /\ tsafe_disabled (snd (run cs s)) = 0
  /\ tsafe_enabled_mutex (snd (run cs s)) = false.
Proof.
  revert s. induction cs as [| c cs IH]; intros s Hcs Hi Hd Hm; simpl.
  - auto.
  - simpl in Hcs. apply andb_true_iff in Hcs. destruct Hcs as [Hc Hcs].
    destruct c; try discriminate. simpl.
    pose proof (pthread_create_flags thread attr start_routine arg s Hi Hm)
      as (G1 & G2 & G3).
    destruct (pthread_create thread attr start_routine arg s)
      as [[v | h] s1]; simpl in *; [now apply IH | auto].
Qed.

(** C4.  In an initialised process, after a first call of
    [pthread_create], and after any number of further calls of it, the
    gate is enabled, and it stays so until [qb_tsafe_off], which
    disables it.  [pthread_create] itself never ends in the assertion,
    whatever the flags are, and where the real [pthread_create] resolves
    it is called with the four arguments and its result returned. *)
Theorem pthread_create_enables_gate :
  (forall (c : call) (cs : list call) (s : proc),
      tsafe_inited s <> 0 ->
      tsafe_enabled_mutex s = false ->
      forallb is_pthread_create (c :: cs) = true ->
      gate_enabled (snd (exec c s)) = true
      /\ gate_enabled (snd (run (c :: cs) s)) = true
      /\ gate_enabled (snd (qb_tsafe_off (snd (run (c :: cs) s)))) = false)
  /\ (forall (thread attr start_routine arg : cval) (s : proc),
         fst (pthread_create thread attr start_routine arg s) <> Halt Aborted)
  /\ (forall (thread attr start_routine arg : cval) (s : proc),
         tsafe_enabled_mutex s = false ->
         coherent s ->
         resolved "pthread_create" <> NULL ->
         fst (pthread_create thread attr start_routine arg s)
         = Ok (fst (call_ptr (resolved "pthread_create")
                      [thread; attr; start_routine; arg] (libc s)))
         /\ libc (snd (pthread_create thread attr start_routine arg s))
            = snd (call_ptr (resolved "pthread_create")
                     [thread; attr; start_routine; arg] (libc s))).
Proof.
  split; [| split].
  - intros c cs s Hi Hm Hcs.
    assert (Hc : is_pthread_create c = true).
    { simpl in Hcs. now apply andb_true_iff in Hcs. }
    assert (Hcs' : forallb is_pthread_create cs = true).
    { simpl in Hcs. now apply andb_true_iff in Hcs. }
    destruct c; try discriminate. simpl exec.
    pose proof (pthread_create_flags thread attr start_routine arg s Hi Hm)
      as (G1 & G2 & G3).
    assert (Hrun : tsafe_inited (snd (run (c_pthread_create thread attr
                                             start_routine arg :: cs) s)) <> 0
                   /\ tsafe_disabled (snd (run (c_pthread_create thread attr
                                             start_routine arg :: cs) s)) = 0
                   /\ tsafe_enabled_mutex
                        (snd (run (c_pthread_create thread attr
                                     start_routine arg :: cs) s)) = false).
    { simpl run.
      destruct (pthread_create thread attr start_routine arg s)
        as [[v | h] s1]; simpl in *;
        [now apply pthread_create_run | auto]. }
    destruct Hrun as (R1 & R2 & R3).
    unfold gate_enabled. split; [| split].
    + rewrite G2. destruct (Z.eqb_spec (tsafe_inited
        (snd (pthread_create thread attr start_routine arg s))) 0);
        [contradiction | reflexivity].
    + rewrite R2. destruct (Z.eqb_spec (tsafe_inited
        (snd (run (c_pthread_create thread attr start_routine arg :: cs) s)))
        0); [contradiction | reflexivity].
    + rewrite (qb_tsafe_off_eval _ R3). simpl. apply andb_false_r.
  - intros thread attr start_routine arg s.
    destruct (pthread_create_outcome thread attr start_routine arg s)
      as [[s1 ->] | [s1 ->]]; [discriminate |].
    rewrite forward_cases. destruct (_ =? NULL); discriminate.
  - intros thread attr start_routine arg s Hm Hc Hr.
    destruct (pthread_create_cases thread attr start_routine arg s Hm)
      as (s1 & -> & H1 & H2 & H3 & H4 & H5 & _).
    assert (Hc1 : coherent s1) by (intros g; rewrite H4; apply Hc).
    destruct (forward_resolvable "pthread_create"
                [thread; attr; start_routine; arg] s1 Hc1 Hr)
      as (s' & -> & L & _).
    simpl. rewrite L, H5. auto.
Qed.

(** ** The fork handlers *)

Lemma fork_in_parent_eval (s : proc) :
  tsafe_enabled_mutex s = false ->
  fork_in_parent s = (Ok tt, log [EvLock; EvUnlock] s).
Proof.
  intros Hm. destruct s; simpl in Hm; subst.
  unfold fork_in_parent, atfork_prepare, atfork_parent, bind, tsafe_lock,
    tsafe_unlock, log, set_mutex; simpl.
  repeat rewrite <- app_assoc. reflexivity.
Qed.

Lemma fork_in_child_eval (s : proc) :
  tsafe_enabled_mutex s = false ->
  fork_in_child s = (Ok tt, log (child_events s) (set_disabled (child_flag s) s)).
Proof.
  intros Hm. destruct s; simpl in Hm; subst.
  unfold fork_in_child, atfork_prepare, atfork_child, child_flag,
    child_events, bind, tsafe_lock, tsafe_unlock, read_inited, read_disabled,
    write_disabled, ret, log, set_mutex, set_disabled; simpl.
  destruct (tsafe_inited0 =? 0); simpl.
  - repeat rewrite <- app_assoc. reflexivity.
  - destruct (tsafe_disabled0 =? 0); simpl;
      repeat rewrite <- app_assoc; reflexivity.
Qed.

(** C5.  With the lock free when [fork] starts: in the child, after the
    prepare and the child handler, the gate is disabled, and if
    [tsafe_inited] is set then [tsafe_disabled] is set, also when it was
    clear in the parent; in the parent, after the prepare and the parent
    handler, both flags are as before.  In both the lock is free again
    and nothing else has changed. *)
Theorem fork_disables_gate_in_child (s : proc) :
  tsafe_enabled_mutex s = false ->
  (fst (fork_in_child s) = Ok tt
   /\ gate_enabled (snd (fork_in_child s)) = false
   /\ (tsafe_inited s <> 0 -> tsafe_disabled (snd (fork_in_child s)) <> 0)
   /\ tsafe_inited (snd (fork_in_child s)) = tsafe_inited s
   /\ tsafe_enabled_mutex (snd (fork_in_child s)) = false
   /\ coro_environ (snd (fork_in_child s)) = coro_environ s
   /\ real_ (snd (fork_in_child s)) = real_ s)
  /\ (fst (fork_in_parent s) = Ok tt
      /\ tsafe_disabled (snd (fork_in_parent s)) = tsafe_disabled s
      /\ tsafe_inited (snd (fork_in_parent s)) = tsafe_inited s
      /\ gate_enabled (snd (fork_in_parent s)) = gate_enabled s
      /\ tsafe_enabled_mutex (snd (fork_in_parent s)) = false
      /\ coro_environ (snd (fork_in_parent s)) = coro_environ s
      /\ real_ (snd (fork_in_parent s)) = real_ s).
Proof.
  intros Hm. rewrite (fork_in_child_eval s Hm), (fork_in_parent_eval s Hm).
  unfold gate_enabled, child_flag. simpl.
  split; repeat split; try assumption.
  - destruct (Z.eqb_spec (tsafe_inited s) 0) as [Ei | Ei]; [reflexivity |].
    destruct (Z.eqb_spec (tsafe_disabled s) 0) as [Ed | Ed]; simpl;
      [reflexivity |].
    destruct (Z.eqb_spec (tsafe_disabled s) 0); [contradiction | reflexivity].
  - intros Hi.
    destruct (Z.eqb_spec (tsafe_inited s) 0) as [Ei | Ei]; [contradiction |].
    destruct (Z.eqb_spec (tsafe_disabled s) 0) as [Ed | Ed];
      [discriminate | assumption].
Qed.

(** ** The lock and the flag *)

Lemma extends_log (s : proc) (es : list event) : extends s (log es s).
Proof. now exists es. Qed.

Lemma extends_trans (s1 s2 s3 : proc) :
  extends s1 s2 -> extends s2 s3 -> extends s1 s3.
Proof.
  intros [a Ha] [b Hb]. exists (a ++ b). now rewrite Hb, Ha, app_assoc.
Qed.

Lemma forward_extends (f : string) (args : list cval) (s : proc) :
  extends s (snd (forward f args s)).
Proof.
  rewrite forward_cases.
  assert (H : extends s (looked_up f s)).
  { unfold looked_up. destruct (_ =? NULL).
    - now exists [EvDlsym f].
    - exists []. now rewrite app_nil_r. }
  destruct (_ =? NULL); simpl; [exact H |].
  apply (extends_trans _ _ _ H). now exists [EvCall (target f s) args].
Qed.

Lemma reads_then (s s' : proc) :
  extends (log [EvReadInited; EvReadDisabled] s) s' ->
  exists es, trace s' = trace s ++ EvReadInited :: EvReadDisabled :: es.
Proof.
  intros [es H]. exists es. rewrite H. simpl. now rewrite <- app_assoc.
Qed.

Lemma banned_dispatch_reads (f : string) (args : list cval) (d : cval)
      (s : proc) :
  tsafe_inited s <> 0 ->
  exists es,
    trace (snd (banned f args d s))
    = trace s ++ EvReadInited :: EvReadDisabled :: es.
Proof.
  intros Hi. apply reads_then. unfold banned, bind.
  rewrite (gate_off_init s Hi).
  destruct (negb (tsafe_disabled s =? 0)).
  - apply forward_extends.
  - simpl. apply (extends_log (log [EvReadInited; EvReadDisabled] s) [EvAssert]).
Qed.

Lemma setgrent_dispatch_reads (s : proc) :
  tsafe_inited s <> 0 ->
  exists es,
    trace (snd (setgrent s))
    = trace s ++ EvReadInited :: EvReadDisabled :: es.
Proof.
  intros Hi. destruct QB_BSD eqn:Hb.
  - unfold setgrent. rewrite Hb. now apply banned_dispatch_reads.
  - apply reads_then. rewrite (setgrent_elsewhere s Hb).
    unfold gate_reads.
    destruct (Z.eqb_spec (tsafe_inited s) 0) as [E | _]; [contradiction |].
    destruct (gate_enabled s).
    + simpl.
      apply (extends_log (log [EvReadInited; EvReadDisabled] s) [EvAssert]).
    + unfold bind.
      pose proof (forward_extends "setgrent" []
                    (log [EvReadInited; EvReadDisabled] s)) as H.
      destruct (forward "setgrent" [] (log [EvReadInited; EvReadDisabled] s))
        as [[v | h] s1]; simpl in *; [| exact H].
      apply (extends_trans _ _ _ H). now exists [EvAssert].
Qed.

Lemma getenv_dispatch_reads (name : string) (s : proc) :
  tsafe_inited s <> 0 ->
  exists es,
    trace (snd (getenv name s))
    = trace s ++ EvReadInited :: EvReadDisabled :: es.
Proof.
  intros Hi. apply reads_then. unfold getenv, bind.
  rewrite (gate_off_init s Hi).
  destruct (negb (tsafe_disabled s =? 0)); [apply forward_extends |].
  assert (H : extends (log [EvReadInited; EvReadDisabled] s)
                      (log [EvReadInited; EvReadDisabled] s)).
  { exists []. now rewrite app_nil_r. }
  cbn [coro_environ log].
  destruct (coro_environ s) as [env |]; [| exact H].
  destruct (getenv_scan name env 0) as [[entry |] | h]; try exact H.
  destruct (nth_error env (Z.to_nat entry)) as [e |]; [| exact H].
  destruct (strchr e "="%char); exact H.
Qed.

Lemma pthread_create_dispatch_reads (thread attr start_routine arg : cval)
      (s : proc) :
  tsafe_inited s <> 0 ->
  exists es,
    trace (snd (pthread_create thread attr start_routine arg s))
    = trace s ++ EvReadInited :: EvReadDisabled :: es.
Proof.
  intros Hi. apply reads_then. rewrite pthread_create_split, trigger_cases.
  destruct (Z.eqb_spec (tsafe_inited s) 0) as [E | _]; [contradiction |].
  destruct (tsafe_disabled s =? 0); [apply forward_extends |].
  unfold qb_tsafe_on, bind, tsafe_lock. cbn [tsafe_enabled_mutex log].
  destruct (tsafe_enabled_mutex s).
  - exists []. now rewrite app_nil_r.
  - eapply extends_trans; [| apply forward_extends].
    exists [EvLock; EvWriteDisabled 0; EvUnlock]. simpl.
    now repeat rewrite <- app_assoc.
Qed.

Lemma dispatch_reads (c : call) (f : string) (s : proc) :
  real_symbol c = Some f ->
  tsafe_inited s <> 0 ->
  exists es, emitted (exec c) s = EvReadInited :: EvReadDisabled :: es.
Proof.
  intros Hc Hi.
  assert (H : exists es,
             trace (snd (exec c s))
             = trace s ++ EvReadInited :: EvReadDisabled :: es).
  { destruct c; try discriminate; simpl.
    - now apply pthread_create_dispatch_reads.
    - now apply getenv_dispatch_reads.
    - destruct b; simpl;
        first [now apply banned_dispatch_reads
              | now apply setgrent_dispatch_reads]. }
  destruct H as [es H]. exists es. now apply emitted_of_trace.
Qed.

(** C8, as amended.  The accesses to [tsafe_disabled] made by
    [qb_tsafe_on], by [qb_tsafe_off] and by the fork handlers all happen
    with the lock held.  The dispatch of an entry point that stands in
    front of a real implementation does not take the lock: in an
    initialised process the first two things it does are to read
    [tsafe_inited] and then [tsafe_disabled].  Nor does [qb_tsafe_init]
    take it for its write of [tsafe_disabled]. *)
Theorem flag_accesses_and_the_lock :
  (forall s : proc,
      tsafe_enabled_mutex s = false ->
      flag_locked false (emitted qb_tsafe_on s) = true
      /\ flag_locked false (emitted qb_tsafe_off s) = true
      /\ flag_locked false (emitted fork_in_parent s) = true
      /\ flag_locked false (emitted fork_in_child s) = true)
  /\ (forall (c : call) (f : string) (s : proc),
         real_symbol c = Some f ->
         tsafe_inited s <> 0 ->
         (exists es, emitted (exec c) s = EvReadInited :: EvReadDisabled :: es)
         /\ flag_locked false (emitted (exec c) s) = false)
  /\ (forall (envp : list string) (s : proc),
         count_entries envp 1 <= INT32_MAX ->
         emitted (qb_tsafe_init envp) s
         = EvMalloc (sizeof_ptr * count_entries envp 1)
             :: map EvStrdup envp
             ++ [EvAtfork; EvWriteDisabled 1; EvWriteInited 1]
         /\ flag_locked false (emitted (qb_tsafe_init envp) s) = false).
Proof.
  split; [| split].
  - intros s Hm.
    rewrite (emitted_of_trace _ qb_tsafe_on s
               [EvLock; EvWriteDisabled 0; EvUnlock])
      by (now rewrite qb_tsafe_on_eval).
    rewrite (emitted_of_trace _ qb_tsafe_off s
               [EvLock; EvWriteDisabled 1; EvUnlock])
      by (now rewrite qb_tsafe_off_eval).
    rewrite (emitted_of_trace _ fork_in_parent s [EvLock; EvUnlock])
      by (now rewrite fork_in_parent_eval).
    rewrite (emitted_of_trace _ fork_in_child s (child_events s))
      by (now rewrite fork_in_child_eval).
    repeat split. unfold child_events.
    destruct (tsafe_inited s =? 0); [reflexivity |].
    destruct (tsafe_disabled s =? 0); reflexivity.
  - intros c f s Hc Hi. destruct (dispatch_reads c f s Hc Hi) as [es H].
    split; [now exists es |]. rewrite H. reflexivity.
  - intros envp s Hn.
    assert (E : emitted (qb_tsafe_init envp) s
                = EvMalloc (sizeof_ptr * count_entries envp 1)
                    :: map EvStrdup envp
                    ++ [EvAtfork; EvWriteDisabled 1; EvWriteInited 1]).
    { apply emitted_of_trace. rewrite qb_tsafe_init_cases.
      destruct (Z.ltb_spec INT32_MAX (count_entries envp 1)); [lia |].
      unfold inited_with. destruct HAVE_PTHREAD_SPIN_LOCK; simpl;
        repeat rewrite <- app_assoc; reflexivity. }
    split; [exact E |]. rewrite E. simpl.
    induction envp as [| e rest IH]; [reflexivity |].
    simpl. clear - rest. induction rest; simpl; auto.
Qed.

(** ** Before initialisation *)

Lemma banned_shape (b : banned_call) :
  asserts_after_call (c_banned b) = false ->
  exists d, exec_banned b = banned (symbol b) (handed_on b) d.
Proof.
  destruct b; simpl; intros H;
    try (unfold setgrent; apply negb_false_iff in H; rewrite H);
    first [ exists Vnull; reflexivity
          | exists (Vint 0); reflexivity
          | exists Vvoid; reflexivity ].
Qed.

(** While the gate is disabled, no banned entry point but the non-BSD
    [setgrent] ends in the assertion, whether or not its real function
    resolves. *)
Lemma never_aborts_while_disabled (b : banned_call) (s : proc) :
  asserts_after_call (c_banned b) = false ->
  gate_enabled s = false ->
  fst (exec_banned b s) <> Halt Aborted.
Proof.
  intros Hb Hg. destruct (banned_shape b Hb) as [d ->].
  rewrite banned_disabled by exact Hg. rewrite forward_cases.
  destruct (_ =? NULL); discriminate.
Qed.

Lemma uninit_gate (s : proc) :
  tsafe_inited s = 0 ->
  gate_enabled s = false /\ gate_reads s = [EvReadInited].
Proof.
  intros Hi. unfold gate_enabled, gate_reads. now rewrite Hi.
Qed.

Lemma uninit_shape (c : call) (f : string) (s : proc) :
  tsafe_inited s = 0 ->
  real_symbol c = Some f ->
  exec c s
  = if asserts_after_call c
    then ((forward f (handed c) ;; ret tt) ;; assert0 ;; ret Vvoid)
           (log [EvReadInited] s)
    else forward f (handed c) (log [EvReadInited] s).
Proof.
  intros Hi Hc. destruct (uninit_gate s Hi) as [Hg Hr].
  destruct c; try discriminate; simpl in Hc; inversion Hc; subst f; clear Hc.
  - simpl. rewrite pthread_create_split, trigger_cases, Hi. reflexivity.
  - simpl. unfold getenv, bind. rewrite gate_off_eval, Hg, Hr. reflexivity.
  - destruct (asserts_after_call (c_banned b)) eqn:Ha.
    + destruct b; try discriminate. simpl in Ha. apply negb_true_iff in Ha.
      simpl. rewrite (setgrent_elsewhere s Ha), Hg, Hr. reflexivity.
    + destruct (banned_shape b Ha) as [d Hd]. simpl. rewrite Hd.
      rewrite banned_disabled by exact Hg. now rewrite Hr.
Qed.

(** What a call does in a process where [tsafe_inited] is 0, whatever
    the value of [tsafe_disabled]: an entry point that stands in front of
    a real implementation reads [tsafe_inited], resolves the real
    function if it has not yet, and calls it; [tsafe_disabled] is neither
    read nor written. *)
Lemma uninitialised_entry_points_forward (c : call) (f : string) (s : proc) :
  tsafe_inited s = 0 ->
  real_symbol c = Some f ->
  coherent s ->
  resolved f <> NULL ->
  tsafe_disabled (snd (exec c s)) = tsafe_disabled s
  /\ tsafe_inited (snd (exec c s)) = 0
  /\ libc (snd (exec c s)) = snd (call_ptr (resolved f) (handed c) (libc s))
  /\ emitted (exec c) s
     = EvReadInited :: lookup_events f s
         ++ EvCall (resolved f) (handed c)
         :: (if asserts_after_call c then [EvAssert] else [])
  /\ (asserts_after_call c = false ->
      fst (exec c s)
      = Ok (fst (call_ptr (resolved f) (handed c) (libc s)))).
Proof.
  intros Hi Hc Hco Hr.
  destruct (forward_resolvable f (handed c) (log [EvReadInited] s)
              (coherent_log _ s Hco) Hr)
    as (s' & H1 & H2 & H3 & H4 & H5 & _).
  assert (Hf : forward f (handed c) (log [EvReadInited] s)
               = (Ok (fst (call_ptr (resolved f) (handed c) (libc s))), s'))
    by exact H1.
  simpl in H2, H3, H4, H5.
  assert (E : exec c s
              = if asserts_after_call c
                then (Halt Aborted, log [EvAssert] s')
                else (Ok (fst (call_ptr (resolved f) (handed c) (libc s))),
                      s')).
  { rewrite (uninit_shape c f s Hi Hc).
    destruct (asserts_after_call c); [| exact Hf].
    unfold bind. rewrite Hf. reflexivity. }
  assert (Et : trace (snd (exec c s))
               = trace s ++ EvReadInited :: lookup_events f s
                   ++ EvCall (resolved f) (handed c)
                   :: (if asserts_after_call c then [EvAssert] else [])).
  { rewrite E. destruct (asserts_after_call c); simpl; rewrite H3;
      unfold lookup_events; simpl; repeat rewrite <- app_assoc; reflexivity. }
  repeat split.
  - rewrite E. destruct (asserts_after_call c); simpl; now rewrite H4.
  - rewrite E. destruct (asserts_after_call c); simpl; now rewrite H5.
  - rewrite E. destruct (asserts_after_call c); simpl; exact H2.
  - now apply emitted_of_trace.
  - intros Ha. rewrite E, Ha. reflexivity.
Qed.

(** C9, where the code departs from it.  On a build that is not BSD, in
    a process where [tsafe_inited] is 0, [setgrent()] reads
    [tsafe_inited], resolves the real [setgrent] if it has not yet and
    calls it, and then fails the assertion: the process aborts although
    the library was never initialised. *)
Theorem setgrent_aborts_before_initialisation (s : proc) :
  QB_BSD = false ->
  tsafe_inited s = 0 ->
  coherent s ->
  resolved "setgrent" <> NULL ->
  fst (exec (c_banned c_setgrent) s) = Halt Aborted
  /\ emitted (exec (c_banned c_setgrent)) s
     = EvReadInited :: lookup_events "setgrent" s
         ++ [EvCall (resolved "setgrent") []; EvAssert]
  /\ libc (snd (exec (c_banned c_setgrent) s))
     = snd (call_ptr (resolved "setgrent") [] (libc s)).
Proof.
  intros Hb Hi Hc Hr. destruct (uninit_gate s Hi) as [Hg Hreads].
  destruct (setgrent_forwards_then_aborts s Hb Hg Hc Hr) as (s' & E & L & T).
  assert (Ex : exec (c_banned c_setgrent) s = (Halt Aborted, log [EvAssert] s'))
    by exact E.
  split; [now rewrite Ex |]. split; [| now rewrite Ex].
  apply emitted_of_trace. rewrite Ex. simpl. rewrite T, Hreads.
  repeat (rewrite <- app_assoc; simpl). reflexivity.
Qed.

Lemma plain_forwarding_has_no_assert (c : call) :
  forwards_plainly c = true -> asserts_after_call c = false.
Proof.
  destruct c; simpl; try reflexivity. destruct b; simpl; try reflexivity.
  now intros ->.
Qed.

Lemma regular_hands_on_everything (b : banned_call) :
  regular b = true -> handed_on b = arguments b.
Proof. destruct b; simpl; intros H; try reflexivity. discriminate. Qed.

(** X12.  In a process where [tsafe_inited] is 0, whatever the value of
    [tsafe_disabled] (also 0, as after a [qb_tsafe_on]), [pthread_create],
    [getenv] and every banned function that follows the common pattern
    (all but [crypt] and the non-BSD [setgrent]) whose real function
    resolves read [tsafe_inited] and nothing else of the flags, resolve
    the real function if they have not yet, call it with the arguments
    of the call and return its result.  [tsafe_disabled] is neither read
    nor written: [pthread_create] does not enable the gate, [getenv]
    does not look at the snapshot, and no assertion is reached. *)
Theorem uninitialised_calls_pass_through (c : call) (f : string) (s : proc) :
  tsafe_inited s = 0 ->
  forwards_plainly c = true ->
  real_symbol c = Some f ->
  coherent s ->
  resolved f <> NULL ->
  fst (exec c s) = Ok (fst (call_ptr (resolved f) (handed c) (libc s)))
  /\ libc (snd (exec c s)) = snd (call_ptr (resolved f) (handed c) (libc s))
  /\ emitted (exec c) s
     = EvReadInited :: lookup_events f s ++ [EvCall (resolved f) (handed c)]
  /\ tsafe_disabled (snd (exec c s)) = tsafe_disabled s
  /\ tsafe_inited (snd (exec c s)) = 0
  /\ (forall b : banned_call, c = c_banned b -> handed c = arguments b).
Proof.
  intros Hi Hp Hc Hco Hr.
  pose proof (plain_forwarding_has_no_assert c Hp) as Ha.
  destruct (uninitialised_entry_points_forward c f s Hi Hc Hco Hr)
    as (H1 & H2 & H3 & H4 & H5).
  rewrite Ha in H4.
  split; [exact (H5 Ha) |]. split; [exact H3 |]. split; [exact H4 |].
  split; [exact H1 |]. split; [exact H2 |].
  intros b ->. simpl in *. now apply regular_hands_on_everything.
Qed.

(** ** The snapshot lookup *)

Lemma strchr_nonneg (e : string) (c : ascii) (k : Z) :
  strchr e c = Some k -> 0 <= k.
Proof.
  revert k. induction e as [| a r IH]; simpl; intros k H; [discriminate |].
  destruct (Ascii.eqb a c).
  - inversion H. lia.
  - destruct (strchr r c) as [k' |]; simpl in H; [| discriminate].
    inversion H. specialize (IH k' eq_refl). lia.
Qed.

Lemma strchr_value_of (e : string) :
  strchr e "="%char = None <-> value_of e = None.
Proof.
  induction e as [| a r IH]; simpl; [tauto |].
  destruct (Ascii.eqb a "="%char); [split; discriminate |].
  destruct (strchr r "="%char) as [k |]; simpl.
  - split; [discriminate |]. intros H. apply IH in H. discriminate.
  - split; intros _; [now apply IH | reflexivity].
Qed.

(** The first [=] of an entry sits right after its name, and the value
    starts right after it. *)
Lemma strchr_name_of (e : string) (k : Z) :
  strchr e "="%char = Some k ->
  k = strlen (name_of e)
  /\ value_of e = Some (string_from (Z.to_nat (k + 1)) e).
Proof.
  revert k. induction e as [| a r IH]; simpl; intros k H; [discriminate |].
  destruct (Ascii.eqb a "="%char).
  - inversion H. subst. simpl. split; reflexivity.
  - destruct (strchr r "="%char) as [k' |] eqn:E; simpl in H; [| discriminate].
    inversion H. subst. destruct (IH k' eq_refl) as [H1 H2].
    pose proof (strchr_nonneg r _ k' E) as Hk.
    split.
    + unfold strlen in *. simpl String.length. lia.
    + rewrite H2. replace (Z.to_nat (Z.succ k' + 1)) with (S (Z.to_nat (k' + 1)))
        by lia. reflexivity.
Qed.

Lemma code_inj (a b : ascii) : code a - code b = 0 -> a = b.
Proof.
  unfold code. intros H.
  assert (E : nat_of_ascii a = nat_of_ascii b) by lia.
  rewrite <- (ascii_nat_embedding a), <- (ascii_nat_embedding b).
  now rewrite E.
Qed.

(** The test of the loop is the comparison of the name of the entry
    with [name]. *)
Lemma scan_test (e name : string) (k : Z) :
  strchr e "="%char = Some k ->
  (k =? strlen name) && (strncmp name e (Z.to_nat k) =? 0)
  = String.eqb (name_of e) name.
Proof.
  revert name k. induction e as [| a r IH]; simpl; intros name k H;
    [discriminate |].
  destruct (Ascii.eqb a "="%char) eqn:Ea.
  - inversion H. subst. simpl. destruct name as [| b n]; [reflexivity |].
    unfold strlen. simpl String.length.
    destruct (Z.eqb_spec 0 (Z.of_nat (S (String.length n)))); [lia |].
    reflexivity.
  - destruct (strchr r "="%char) as [k' |] eqn:E; simpl in H; [| discriminate].
    inversion H. subst. pose proof (strchr_nonneg r _ k' E) as Hk.
    replace (Z.to_nat (Z.succ k')) with (S (Z.to_nat k')) by lia.
    destruct name as [| b n].
    + unfold strlen. simpl.
      destruct (Z.eqb_spec (Z.succ k') 0); [lia | reflexivity].
    + simpl strncmp. simpl String.eqb.
      assert (Hl : (Z.succ k' =? strlen (String b n)) = (k' =? strlen n)).
      { unfold strlen. simpl String.length.
        destruct (Z.eqb_spec k' (Z.of_nat (String.length n)));
          destruct (Z.eqb_spec (Z.succ k') (Z.of_nat (S (String.length n))));
          try reflexivity; lia. }
      rewrite Hl.
      destruct (Ascii.eqb_spec b a) as [-> | Hba].
      * rewrite Ascii.eqb_refl. now apply IH.
      * destruct (Ascii.eqb_spec a b) as [-> | _]; [contradiction |].
        destruct (Z.eqb_spec (code b - code a) 0) as [E0 | _].
        -- apply code_inj in E0. contradiction.
        -- apply andb_false_r.
Qed.

Lemma has_eq_strchr (e : string) :
  has_eq e -> exists k, strchr e "="%char = Some k.
Proof.
  intros H. destruct (strchr e "="%char) as [k |] eqn:E; [now exists k |].
  apply strchr_value_of in E. contradiction.
Qed.

(** The loop finds the first entry named [name]. *)
Lemma getenv_scan_first_match (name : string) (env : list string) (entry : Z) :
  Forall has_eq env ->
  entry + Z.of_nat (List.length env) <= INT32_MAX ->
  getenv_scan name env entry
  = Ok (option_map (fun i => entry + Z.of_nat i) (first_match name env)).
Proof.
  revert entry. induction env as [| e rest IH]; intros entry Hall Hlen;
    simpl getenv_scan; simpl first_match; [reflexivity |].
  inversion Hall as [| ? ? He Hrest]; subst.
  destruct (has_eq_strchr e He) as [k Hk]. rewrite Hk.
  cbv zeta. rewrite (scan_test e name k Hk).
  destruct (String.eqb (name_of e) name).
  - simpl. f_equal. f_equal. lia.
  - simpl List.length in Hlen.
    destruct (Z.leb_spec INT32_MAX entry); [lia |].
    rewrite IH by (try assumption; lia).
    destruct (first_match name rest); simpl; [| reflexivity].
    f_equal. f_equal. lia.
Qed.

Lemma first_match_some (name : string) (env : list string) (i : nat) :
  first_match name env = Some i ->
  exists e, nth_error env i = Some e /\ name_of e = name.
Proof.
  revert i. induction env as [| e rest IH]; simpl; intros i H;
    [discriminate |].
  destruct (String.eqb_spec (name_of e) name) as [E | _].
  - inversion H. subst. now exists e.
  - destruct (first_match name rest) as [j |]; simpl in H; [| discriminate].
    inversion H. subst. simpl. now apply IH.
Qed.

(** [first_match] against the words of the specification. *)
Lemma first_match_none (name : string) (env : list string) :
  (forall e, In e env -> name_of e <> name) ->
  first_match name env = None.
Proof.
  induction env as [| e rest IH]; simpl; intros H; [reflexivity |].
  destruct (String.eqb_spec (name_of e) name) as [E | _].
  - exfalso. apply (H e); auto.
  - rewrite IH; [reflexivity |]. intros e' He'. apply H. auto.
Qed.

Lemma first_match_first (name : string) (env : list string) (i : nat)
      (e : string) :
  nth_error env i = Some e ->
  name_of e = name ->
  (forall j e', (j < i)%nat -> nth_error env j = Some e' -> name_of e' <> name) ->
  first_match name env = Some i.
Proof.
  revert i. induction env as [| x rest IH]; intros i Hn He Hfirst.
  - destruct i; discriminate.
  - simpl. destruct i as [| i].
    + simpl in Hn. inversion Hn. subst. now rewrite String.eqb_refl.
    + destruct (String.eqb_spec (name_of x) name) as [E | _].
      * exfalso. apply (Hfirst O x); [lia | reflexivity | exact E].
      * rewrite (IH i); [reflexivity | exact Hn | exact He |].
        intros j e' Hj Hj'. apply (Hfirst (S j) e'); [lia | exact Hj'].
Qed.

(** [getenv] with the gate enabled, in terms of [first_match]. *)
Lemma getenv_enabled (name : string) (env : list string) (s : proc) :
  tsafe_inited s <> 0 ->
  tsafe_disabled s = 0 ->
  coro_environ s = Some env ->
  Forall has_eq env ->
  Z.of_nat (List.length env) <= INT32_MAX ->
  getenv name s
  = (Ok (match first_match name env with
         | Some i => Venv (Z.of_nat i) (strlen name + 1)
         | None => Vnull
         end),
     log [EvReadInited; EvReadDisabled] s).
Proof.
  intros Hi Hd Hc Hall Hlen. unfold getenv, bind.
  rewrite (gate_off_init s Hi), Hd.
  change (negb (0 =? 0)) with false. cbv beta iota.
  cbn [coro_environ log]. rewrite Hc.
  rewrite getenv_scan_first_match by (try assumption; lia).
  destruct (first_match name env) as [i |] eqn:Hf; simpl; [| reflexivity].
  destruct (first_match_some name env i Hf) as (e & Hn & He).
  rewrite Nat2Z.id, Hn.
  assert (Hin : In e env) by (eapply nth_error_In; eauto).
  rewrite Forall_forall in Hall.
  destruct (has_eq_strchr e (Hall e Hin)) as [k Hk]. rewrite Hk.
  destruct (strchr_name_of e k Hk) as [-> _]. now rewrite He.
Qed.

Lemma deref_value (s : proc) (env : list string) (i : nat) (e : string) :
  coro_environ s = Some env ->
  nth_error env i = Some e ->
  has_eq e ->
  strchr e "="%char = Some (strlen (name_of e))
  /\ deref s (Venv (Z.of_nat i) (strlen (name_of e) + 1)) = value_of e.
Proof.
  intros Hc Hn He. destruct (has_eq_strchr e He) as [k Hk].
  destruct (strchr_name_of e k Hk) as [Ek Hv]. subst k.
  split; [exact Hk |].
  unfold deref. rewrite Hc, Nat2Z.id, Hn. now rewrite Hv.
Qed.

(** C10.  With the library initialised, [tsafe_disabled] clear and every
    snapshot entry holding a [=]: if no entry has [name] as the segment
    before its first [=], [getenv(name)] returns the null pointer; and
    if entry [i] is the first that has, it returns the address
    [coro_environ[i] + strlen(name) + 1], which is just past the first
    [=] of that entry and reads as the rest of the entry.  In both cases
    nothing happens but the two flag reads: nothing is allocated or
    copied. *)
Theorem getenv_snapshot_lookup (name : string) (env : list string) (s : proc) :
  tsafe_inited s <> 0 ->
  tsafe_disabled s = 0 ->
  coro_environ s = Some env ->
  Forall has_eq env ->
  Z.of_nat (List.length env) <= INT32_MAX ->
  ((forall e, In e env -> name_of e <> name) ->
   getenv name s = (Ok Vnull, log [EvReadInited; EvReadDisabled] s))
  /\ (forall (i : nat) (e : string),
         nth_error env i = Some e ->
         name_of e = name ->
         (forall j e', (j < i)%nat -> nth_error env j = Some e' ->
                       name_of e' <> name) ->
         getenv name s
         = (Ok (Venv (Z.of_nat i) (strlen name + 1)),
            log [EvReadInited; EvReadDisabled] s)
         /\ strchr e "="%char = Some (strlen name)
         /\ deref (snd (getenv name s)) (Venv (Z.of_nat i) (strlen name + 1))
            = value_of e).
Proof.
  intros Hi Hd Hc Hall Hlen.
  pose proof (getenv_enabled name env s Hi Hd Hc Hall Hlen) as G.
  split.
  - intros Hno. rewrite G, (first_match_none name env Hno). reflexivity.
  - intros i e Hn He Hfirst.
    rewrite G, (first_match_first name env i e Hn He Hfirst).
    assert (Hin : In e env) by (eapply nth_error_In; eauto).
    rewrite Forall_forall in Hall.
    destruct (deref_value (log [EvReadInited; EvReadDisabled] s) env i e
                Hc Hn (Hall e Hin)) as [D1 D2].
    rewrite He in D1, D2. repeat split; assumption.
Qed.

(** ** The snapshot outlives changes of the real environment *)

Lemma snapshot_respected (envp : list string) :
  respected (snapshot_is envp) anything.
Proof.
  split; unfold preserves, anything, snapshot_is; intros; try exact I.
  - assumption.
  - assumption.
  - destruct (forward_flags f args s) as (_ & _ & Hc & _).
    destruct (forward f args s) as [[v | h] s1]; simpl in *;
      [congruence | exact I].
  - unfold qb_tsafe_on, bind, tsafe_lock.
    destruct (tsafe_enabled_mutex s); [exact I | exact H].
  - unfold qb_tsafe_off, bind, tsafe_lock.
    destruct (tsafe_enabled_mutex s); [exact I | exact H].
Qed.

(** C6.  Let [envp] be an environment vector whose entries all hold a
    [=], short enough to be counted in an [int32_t], and let it bind
    [name] to [value].  After [qb_tsafe_init(envp)] and any further
    calls into the library that all return (the real functions they
    reach may change the world at will), if the gate is enabled then,
    whatever the world has become, [getenv(name)] returns a pointer into
    the snapshot that reads as [value]; the call does nothing else than
    read the two flags, so the real [getenv] is neither resolved nor
    called. *)
Theorem getenv_returns_captured_value
        (envp : list string) (name value : string) (cs : list call)
        (s0 s1 : proc) :
  Forall has_eq envp ->
  Z.of_nat (List.length envp) < INT32_MAX ->
  captured envp name = Some value ->
  forallb (fun c => negb (is_init c)) cs = true ->
  run (c_qb_tsafe_init envp :: cs) s0 = (None, s1) ->
  gate_enabled s1 = true ->
  exists v,
    deref s1 v = Some value
    /\ forall w : world,
         getenv name (set_libc w s1)
         = (Ok v, log [EvReadInited; EvReadDisabled] (set_libc w s1)).
Proof.
  intros Hall Hlen Hcap Hcs Hrun Hg.
  assert (Hs1 : snapshot_is envp s1).
  { simpl run in Hrun. unfold bind in Hrun.
    rewrite qb_tsafe_init_cases, count_entries_eval in Hrun.
    destruct (Z.ltb_spec INT32_MAX (1 + Z.of_nat (List.length envp)));
      [lia |].
    unfold ret in Hrun.
    pose proof (run_preserves_later _ _ (snapshot_respected envp) cs
                  (inited_with envp s0) Hcs) as Hp.
    rewrite Hrun in Hp. apply Hp. unfold snapshot_is, inited_with.
    destruct HAVE_PTHREAD_SPIN_LOCK; reflexivity. }
  unfold gate_enabled in Hg. apply andb_true_iff in Hg.
  destruct Hg as [Hi Hd]. apply negb_true_iff, Z.eqb_neq in Hi.
  apply Z.eqb_eq in Hd.
  unfold captured in Hcap.
  destruct (first_match name envp) as [i |] eqn:Hf; [| discriminate].
  destruct (first_match_some name envp i Hf) as (e & Hn & He).
  rewrite Hn in Hcap.
  exists (Venv (Z.of_nat i) (strlen name + 1)). split.
  - assert (Hin : In e envp) by (eapply nth_error_In; eauto).
    rewrite Forall_forall in Hall.
    destruct (deref_value s1 envp i e Hs1 Hn (Hall e Hin)) as [_ D].
    rewrite He in D. now rewrite D.
  - intros w.
    rewrite (getenv_enabled name envp (set_libc w s1) Hi Hd Hs1 Hall) by lia.
    now rewrite Hf.
Qed.

(** ** Beyond the claims: switching the gate by hand *)

(** X1.  With the lock free, [qb_tsafe_on] and [qb_tsafe_off] return,
    leave the lock free and set the flag to 0 and to 1; the gate is then
    enabled exactly if the library is initialised, and disabled.  A
    second call of the same kind returns as well and changes nothing of
    the flag, and of two different calls the later one decides.  Neither
    touches [tsafe_inited], the snapshot, the cached pointers or the
    world. *)
Theorem gate_switches_compose (s : proc) :
  tsafe_enabled_mutex s = false ->
  (fst (qb_tsafe_on s) = Ok tt
   /\ tsafe_disabled (snd (qb_tsafe_on s)) = 0
   /\ gate_enabled (snd (qb_tsafe_on s)) = negb (tsafe_inited s =? 0)
   /\ tsafe_enabled_mutex (snd (qb_tsafe_on s)) = false
   /\ tsafe_inited (snd (qb_tsafe_on s)) = tsafe_inited s
   /\ coro_environ (snd (qb_tsafe_on s)) = coro_environ s
   /\ real_ (snd (qb_tsafe_on s)) = real_ s
   /\ libc (snd (qb_tsafe_on s)) = libc s)
  /\ (fst (qb_tsafe_off s) = Ok tt
      /\ tsafe_disabled (snd (qb_tsafe_off s)) = 1
      /\ gate_enabled (snd (qb_tsafe_off s)) = false
      /\ tsafe_enabled_mutex (snd (qb_tsafe_off s)) = false
      /\ tsafe_inited (snd (qb_tsafe_off s)) = tsafe_inited s
      /\ coro_environ (snd (qb_tsafe_off s)) = coro_environ s
      /\ real_ (snd (qb_tsafe_off s)) = real_ s
      /\ libc (snd (qb_tsafe_off s)) = libc s)
  /\ (fst (qb_tsafe_on (snd (qb_tsafe_on s))) = Ok tt
      /\ tsafe_disabled (snd (qb_tsafe_on (snd (qb_tsafe_on s)))) = 0)
  /\ (fst (qb_tsafe_off (snd (qb_tsafe_off s))) = Ok tt
      /\ tsafe_disabled (snd (qb_tsafe_off (snd (qb_tsafe_off s)))) = 1)
  /\ (fst (qb_tsafe_off (snd (qb_tsafe_on s))) = Ok tt
      /\ tsafe_disabled (snd (qb_tsafe_off (snd (qb_tsafe_on s)))) = 1)
  /\ (fst (qb_tsafe_on (snd (qb_tsafe_off s))) = Ok tt
      /\ tsafe_disabled (snd (qb_tsafe_on (snd (qb_tsafe_off s)))) = 0).
Proof.
  intros Hm.
  assert (Mon : tsafe_enabled_mutex (snd (qb_tsafe_on s)) = false)
    by (now rewrite (qb_tsafe_on_eval s Hm)).
  assert (Moff : tsafe_enabled_mutex (snd (qb_tsafe_off s)) = false)
    by (now rewrite (qb_tsafe_off_eval s Hm)).
  rewrite (qb_tsafe_on_eval _ Mon), (qb_tsafe_off_eval _ Mon).
  rewrite (qb_tsafe_on_eval _ Moff), (qb_tsafe_off_eval _ Moff).
  rewrite (qb_tsafe_on_eval s Hm), (qb_tsafe_off_eval s Hm).
  unfold gate_enabled. simpl.
  repeat split; try assumption; try apply andb_true_r; apply andb_false_r.
Qed.

(** ** Beyond the claims: what initialisation leaves behind *)

(** X2.  For a vector of fewer than [INT32_MAX] entries, [qb_tsafe_init]
    returns with the snapshot equal to the vector, entry by entry and in
    order, with [tsafe_inited] 1 and [tsafe_disabled] 1 whatever the
    flags were before: an earlier [qb_tsafe_on] is undone and the gate is
    disabled.  It allocates room for one pointer more than there are
    entries, copies each entry once, registers the fork handlers once,
    resolves and calls nothing, and keeps the cached pointers; the lock
    is reset where it is a spin lock and is left alone elsewhere. *)
Theorem qb_tsafe_init_effect (envp : list string) (s : proc) :
  Z.of_nat (List.length envp) < INT32_MAX ->
  fst (qb_tsafe_init envp s) = Ok tt
  /\ coro_environ (snd (qb_tsafe_init envp s)) = Some envp
  /\ tsafe_inited (snd (qb_tsafe_init envp s)) = 1
  /\ tsafe_disabled (snd (qb_tsafe_init envp s)) = 1
  /\ gate_enabled (snd (qb_tsafe_init envp s)) = false
  /\ real_ (snd (qb_tsafe_init envp s)) = real_ s
  /\ libc (snd (qb_tsafe_init envp s)) = libc s
  /\ tsafe_enabled_mutex (snd (qb_tsafe_init envp s))
     = (if HAVE_PTHREAD_SPIN_LOCK then false else tsafe_enabled_mutex s)
  /\ emitted (qb_tsafe_init envp) s
     = EvMalloc (sizeof_ptr * (Z.of_nat (List.length envp) + 1))
         :: map EvStrdup envp
         ++ [EvAtfork; EvWriteDisabled 1; EvWriteInited 1].
Proof.
  intros Hlen.
  assert (E : qb_tsafe_init envp s = (Ok tt, inited_with envp s)).
  { rewrite qb_tsafe_init_cases, count_entries_eval.
    destruct (Z.ltb_spec INT32_MAX (1 + Z.of_nat (List.length envp)));
      [lia | reflexivity]. }
  assert (Et : trace (inited_with envp s)
               = trace s ++ EvMalloc (sizeof_ptr
                                      * (Z.of_nat (List.length envp) + 1))
                   :: map EvStrdup envp
                   ++ [EvAtfork; EvWriteDisabled 1; EvWriteInited 1]).
  { unfold inited_with. rewrite count_entries_eval.
    replace (1 + Z.of_nat (List.length envp))
      with (Z.of_nat (List.length envp) + 1) by lia.
    destruct HAVE_PTHREAD_SPIN_LOCK; simpl;
      repeat rewrite <- app_assoc; reflexivity. }
  split; [now rewrite E |].
  repeat split;
    try (rewrite E; unfold inited_with;
         destruct HAVE_PTHREAD_SPIN_LOCK; reflexivity).
  apply emitted_of_trace. rewrite E. exact Et.
Qed.

(** ** Beyond the claims: [getenv] outside the snapshot *)

Lemma getenv_disabled (name : string) (s : proc) :
  gate_enabled s = false ->
  getenv name s = forward "getenv" [Vstr name] (log (gate_reads s) s).
Proof.
  intros Hg. unfold getenv, bind. now rewrite gate_off_eval, Hg.
Qed.

(** X3.  While the gate is disabled, initialised or not, [getenv(name)]
    is the real [getenv]: it is resolved if it has not been, called with
    [name], and its result returned, with its effect on the world.  The
    snapshot is not consulted, whatever it binds [name] to, and the
    flags, the snapshot and the lock are as before. *)
Theorem getenv_forwards_while_disabled (name : string) (s : proc) :
  gate_enabled s = false ->
  coherent s ->
  resolved "getenv" <> NULL ->
  fst (getenv name s)
  = Ok (fst (call_ptr (resolved "getenv") [Vstr name] (libc s)))
  /\ libc (snd (getenv name s))
     = snd (call_ptr (resolved "getenv") [Vstr name] (libc s))
  /\ emitted (getenv name) s
     = gate_reads s ++ lookup_events "getenv" s
         ++ [EvCall (resolved "getenv") [Vstr name]]
  /\ tsafe_disabled (snd (getenv name s)) = tsafe_disabled s
  /\ tsafe_inited (snd (getenv name s)) = tsafe_inited s
  /\ coro_environ (snd (getenv name s)) = coro_environ s
  /\ tsafe_enabled_mutex (snd (getenv name s)) = tsafe_enabled_mutex s.
Proof.
  intros Hg Hc Hr. rewrite (getenv_disabled name s Hg).
  destruct (forward_resolvable "getenv" [Vstr name] (log (gate_reads s) s)
              (coherent_log _ s Hc) Hr)
    as (s' & H1 & H2 & H3 & H4 & H5 & H6 & H7 & _).
  assert (Ee : emitted (getenv name) s
               = gate_reads s ++ lookup_events "getenv" s
                   ++ [EvCall (resolved "getenv") [Vstr name]]).
  { apply emitted_of_trace. rewrite (getenv_disabled name s Hg), H1.
    simpl in *. rewrite H3. now rewrite <- app_assoc. }
  rewrite H1. simpl in *. repeat split; assumption.
Qed.

Lemma name_of_has_no_eq (e : string) : strchr (name_of e) "="%char = None.
Proof.
  induction e as [| a r IH]; simpl; [reflexivity |].
  destruct (Ascii.eqb a "="%char) eqn:E; simpl; [reflexivity |].
  now rewrite E, IH.
Qed.

(** X4.  With the gate enabled and every snapshot entry holding a [=], a
    name that itself holds a [=] is bound by no entry: [getenv] returns
    the null pointer for it, also when an entry starts with that very
    text, and does nothing but read the two flags. *)
Theorem getenv_name_with_eq_is_unbound
        (name : string) (env : list string) (s : proc) :
  tsafe_inited s <> 0 ->
  tsafe_disabled s = 0 ->
  coro_environ s = Some env ->
  Forall has_eq env ->
  Z.of_nat (List.length env) <= INT32_MAX ->
  strchr name "="%char <> None ->
  getenv name s = (Ok Vnull, log [EvReadInited; EvReadDisabled] s).
Proof.
  intros Hi Hd Hc Hall Hlen Hn.
  rewrite (getenv_enabled name env s Hi Hd Hc Hall Hlen).
  rewrite first_match_none; [reflexivity |].
  intros e _ He. apply Hn. rewrite <- He. apply name_of_has_no_eq.
Qed.

(** ** Beyond the claims: who changes what *)

Lemma banned_cases (f : string) (args : list cval) (d : cval) (s : proc) :
  banned f args d s
  = if gate_enabled s
    then (Halt Aborted, log (gate_reads s ++ [EvAssert]) s)
    else forward f args (log (gate_reads s) s).
Proof.
  unfold banned, bind. rewrite gate_off_eval.
  destruct (gate_enabled s); simpl; [now rewrite log_log | reflexivity].
Qed.

Lemma setgrent_cases (s : proc) :
  QB_BSD = false ->
  setgrent s
  = if gate_enabled s
    then (Halt Aborted, log (gate_reads s ++ [EvAssert]) s)
    else match forward "setgrent" [] (log (gate_reads s) s) with
         | (Ok _, s1) => (Halt Aborted, log [EvAssert] s1)
         | (Halt h, s1) => (Halt h, s1)
         end.
Proof.
  intros Hb. rewrite (setgrent_elsewhere s Hb).
  destruct (gate_enabled s).
  - unfold bind, ret, assert0, emit, stop, bind. now rewrite log_log.
  - unfold bind.
    destruct (forward "setgrent" [] (log (gate_reads s) s)) as [[v | h] s1];
      reflexivity.
Qed.

Lemma getenv_scan_halt (name : string) (env : list string) (entry : Z)
      (h : halt) :
  getenv_scan name env entry = Halt h -> h = Undefined.
Proof.
  revert entry. induction env as [| e rest IH]; simpl; intros entry H;
    [discriminate |].
  destruct (strchr e "="%char) as [k |]; [| now inversion H].
  destruct ((k =? strlen name) && (strncmp name e (Z.to_nat k) =? 0));
    [discriminate |].
  destruct (INT32_MAX <=? entry); [now inversion H | eauto].
Qed.

(** [getenv] on the snapshot path changes nothing but the log and does
    not wait for the lock. *)
Lemma getenv_enabled_frame (name : string) (s : proc) :
  gate_enabled s = true ->
  snd (getenv name s) = log (gate_reads s) s
  /\ fst (getenv name s) <> Halt Blocked.
Proof.
  intros Hg. unfold getenv, bind. rewrite gate_off_eval, Hg.
  change (negb true) with false. cbv beta iota. cbn [coro_environ log].
  destruct (coro_environ s) as [env |]; [| split; [reflexivity | discriminate]].
  destruct (getenv_scan name env 0) as [[entry |] | h] eqn:E.
  - destruct (nth_error env (Z.to_nat entry)) as [e |];
      [| split; [reflexivity | discriminate]].
    destruct (strchr e "="%char); split; try reflexivity; discriminate.
  - split; [reflexivity | discriminate].
  - apply getenv_scan_halt in E. subst h. split; [reflexivity | discriminate].
Qed.

(** What a wrapper other than [pthread_create] leaves as it was, and
    that it does not wait for the lock. *)
Lemma banned_frame (f : string) (args : list cval) (d : cval) (s : proc) :
  tsafe_disabled (snd (banned f args d s)) = tsafe_disabled s
  /\ tsafe_enabled_mutex (snd (banned f args d s)) = tsafe_enabled_mutex s
  /\ fst (banned f args d s) <> Halt Blocked.
Proof.
  rewrite banned_cases. destruct (gate_enabled s).
  - simpl. repeat split. discriminate.
  - destruct (forward_flags f args (log (gate_reads s) s))
      as (H1 & _ & _ & H4).
    repeat split; try assumption.
    rewrite forward_cases. destruct (_ =? NULL); discriminate.
Qed.

Lemma setgrent_frame (s : proc) :
  tsafe_disabled (snd (setgrent s)) = tsafe_disabled s
  /\ tsafe_enabled_mutex (snd (setgrent s)) = tsafe_enabled_mutex s
  /\ fst (setgrent s) <> Halt Blocked.
Proof.
  destruct QB_BSD eqn:Hb.
  - unfold setgrent. rewrite Hb. apply banned_frame.
  - rewrite (setgrent_cases s Hb). destruct (gate_enabled s).
    + simpl. repeat split. discriminate.
    + destruct (forward_flags "setgrent" [] (log (gate_reads s) s))
        as (H1 & _ & _ & H4).
      pose proof (forward_cases "setgrent" [] (log (gate_reads s) s)) as Hf.
      destruct (forward "setgrent" [] (log (gate_reads s) s))
        as [[v | h] s1]; simpl in *.
      * repeat split; try assumption. discriminate.
      * repeat split; try assumption.
        destruct (_ =? NULL); inversion Hf. discriminate.
Qed.

Lemma getenv_frame (name : string) (s : proc) :
  tsafe_disabled (snd (getenv name s)) = tsafe_disabled s
  /\ tsafe_enabled_mutex (snd (getenv name s)) = tsafe_enabled_mutex s
  /\ fst (getenv name s) <> Halt Blocked.
Proof.
  destruct (gate_enabled s) eqn:Hg.
  - destruct (getenv_enabled_frame name s Hg) as [-> H]. repeat split.
    exact H.
  - rewrite (getenv_disabled name s Hg).
    destruct (forward_flags "getenv" [Vstr name] (log (gate_reads s) s))
      as (H1 & _ & _ & H4).
    repeat split; try assumption.
    rewrite forward_cases. destruct (_ =? NULL); discriminate.
Qed.

Lemma kept_by_all_but_init (e : option (list string)) (i : Z) :
  respected (fun s => coro_environ s = e /\ tsafe_inited s = i)
            (fun _ s => coro_environ s = e /\ tsafe_inited s = i).
Proof.
  split; unfold preserves.
  - auto.
  - auto.
  - auto.
  - intros f args s [H1 H2].
    destruct (forward_flags f args s) as (_ & Hi & Hc & _).
    destruct (forward f args s) as [[v | h] s1]; simpl in *;
      split; congruence.
  - auto.
  - intros s H. unfold qb_tsafe_on, bind, tsafe_lock.
    destruct (tsafe_enabled_mutex s); exact H.
  - intros s H. unfold qb_tsafe_off, bind, tsafe_lock.
    destruct (tsafe_enabled_mutex s); exact H.
Qed.

(** X5.  Only [qb_tsafe_init] changes the snapshot and [tsafe_inited]:
    every other call into the library, returning or not, leaves both as
    they were, so an initialised library stays initialised and the
    snapshot is never edited.  And only [qb_tsafe_init], [qb_tsafe_on],
    [qb_tsafe_off] and [pthread_create] change [tsafe_disabled] or take
    the lock: [getenv], [catgets] and the banned functions leave the flag
    and the lock as they were and never wait for the lock, in any
    state. *)
Theorem calls_keep_what_is_not_theirs :
  (forall (c : call) (s : proc),
      is_init c = false ->
      coro_environ (snd (exec c s)) = coro_environ s
      /\ tsafe_inited (snd (exec c s)) = tsafe_inited s)
  /\ (forall (c : call) (s : proc),
         may_write_flag c = false ->
         tsafe_disabled (snd (exec c s)) = tsafe_disabled s
         /\ tsafe_enabled_mutex (snd (exec c s)) = tsafe_enabled_mutex s
         /\ fst (exec c s) <> Halt Blocked).
Proof.
  split.
  - intros c s Hc.
    pose proof (exec_preserves_later _ _
                  (kept_by_all_but_init (coro_environ s) (tsafe_inited s))
                  c Hc s (conj eq_refl eq_refl)) as H.
    destruct (exec c s) as [[v | h] s1]; exact H.
  - intros c s Hc. destruct c; try discriminate; simpl.
    + apply getenv_frame.
    + unfold catgets, ret. simpl. repeat split. discriminate.
    + destruct b; simpl; first [apply banned_frame | apply setgrent_frame].
Qed.

(** ** Beyond the claims: the lock *)

Lemma forward_not_blocked (f : string) (args : list cval) (s : proc) :
  fst (forward f args s) <> Halt Blocked.
Proof. rewrite forward_cases. destruct (_ =? NULL); discriminate. Qed.

Lemma pthread_create_blocks (thread attr start_routine arg : cval) (s : proc) :
  fst (pthread_create thread attr start_routine arg s) = Halt Blocked
  <-> tsafe_inited s <> 0 /\ tsafe_disabled s <> 0
      /\ tsafe_enabled_mutex s = true.
Proof.
  rewrite pthread_create_split, trigger_cases.
  pose proof (forward_not_blocked "pthread_create"
                [thread; attr; start_routine; arg]) as Hf.
  destruct (Z.eqb_spec (tsafe_inited s) 0) as [Ei | Ei].
  - split; [intros H; now apply Hf in H | intros (H & _); contradiction].
  - destruct (Z.eqb_spec (tsafe_disabled s) 0) as [Ed | Ed].
    + split; [intros H; now apply Hf in H | intros (_ & H & _); contradiction].
    + unfold qb_tsafe_on, bind, tsafe_lock. cbn [tsafe_enabled_mutex log].
      destruct (tsafe_enabled_mutex s); simpl.
      * split; auto.
      * split; [intros H; now apply Hf in H | intros (_ & _ & H); discriminate].
Qed.

Lemma exec_not_blocked (c : call) (s : proc) :
  tsafe_enabled_mutex s = false ->
  fst (exec c s) <> Halt Blocked.
Proof.
  intros Hm. destruct c; simpl.
  - unfold bind. rewrite qb_tsafe_init_cases.
    destruct (_ <? _); discriminate.
  - unfold bind. rewrite (qb_tsafe_on_eval s Hm). discriminate.
  - unfold bind. rewrite (qb_tsafe_off_eval s Hm). discriminate.
  - intros H. apply pthread_create_blocks in H.
    destruct H as (_ & _ & H). congruence.
  - apply getenv_frame.
  - discriminate.
  - destruct b; simpl; first [apply banned_frame | apply setgrent_frame].
Qed.

(** X6.  [pthread_create] waits for the lock in one situation only: the
    library is initialised, [tsafe_disabled] is set, so that it has to
    enable the gate, and the lock is held.  With the gate already
    enabled, or before initialisation, it goes on to the real function
    whoever holds the lock.  And a process that makes its calls one
    after the other, starting with the lock free, never waits for the
    lock, and has the lock free again whenever its calls have all
    returned. *)
Theorem lock_is_waited_for_only_to_enable :
  (forall (thread attr start_routine arg : cval) (s : proc),
      fst (pthread_create thread attr start_routine arg s) = Halt Blocked
      <-> tsafe_inited s <> 0 /\ tsafe_disabled s <> 0
          /\ tsafe_enabled_mutex s = true)
  /\ (forall (cs : list call) (s : proc),
         tsafe_enabled_mutex s = false ->
         fst (run cs s) <> Some Blocked
         /\ (fst (run cs s) = None ->
             tsafe_enabled_mutex (snd (run cs s)) = false)).
Proof.
  split; [exact pthread_create_blocks |].
  induction cs as [| c cs IH]; intros s Hm; simpl.
  - split; [discriminate | auto].
  - pose proof (exec_not_blocked c s Hm) as Hb.
    pose proof (exec_preserves _ _ lock_free_respected c lock_free_init s Hm)
      as Hp.
    destruct (exec c s) as [[v | h] s1]; simpl in *.
    + now apply IH.
    + split; [| discriminate]. intros H. apply Hb. now inversion H.
Qed.

Lemma held_after_app (h : bool) (a b : list event) :
  held_after h (a ++ b) = held_after (held_after h a) b.
Proof.
  revert h. induction a as [| e a IH]; intros h; simpl; [reflexivity |].
  destruct e; apply IH.
Qed.

Lemma calls_unlocked_app (h : bool) (a b : list event) :
  calls_unlocked h (a ++ b)
  = calls_unlocked h a && calls_unlocked (held_after h a) b.
Proof.
  revert h. induction a as [| e a IH]; intros h; simpl; [reflexivity |].
  destruct e; try apply IH; rewrite IH; now rewrite andb_assoc.
Qed.

Lemma lock_outside_calls_log (es : list event) (s : proc) :
  held_after false es = false ->
  calls_unlocked false es = true ->
  lock_outside_calls s -> lock_outside_calls (log es s).
Proof.
  intros H1 H2 [I1 I2]. unfold lock_outside_calls. simpl.
  rewrite held_after_app, calls_unlocked_app, I1, I2, H1, H2. auto.
Qed.

Lemma lock_outside_calls_same (s s' : proc) :
  trace s' = trace s ->
  lock_outside_calls s -> lock_outside_calls s'.
Proof. unfold lock_outside_calls. now intros ->. Qed.

Lemma lock_outside_calls_respected :
  respected lock_outside_calls (fun _ s => lock_outside_calls s).
Proof.
  split; unfold preserves.
  - auto.
  - intros s H. now apply lock_outside_calls_log.
  - intros s H. now apply lock_outside_calls_log.
  - intros f args s H. rewrite forward_cases.
    assert (Hl : lock_outside_calls (looked_up f s)).
    { unfold looked_up. destruct (_ =? NULL); [| exact H].
      apply (lock_outside_calls_same (log [EvDlsym f] s)); [reflexivity |].
      now apply lock_outside_calls_log. }
    destruct (_ =? NULL); [exact Hl |].
    apply (lock_outside_calls_same
             (log [EvCall (target f s) args] (looked_up f s)));
      [reflexivity | now apply lock_outside_calls_log].
  - intros s H. simpl. now apply lock_outside_calls_log.
  - intros s H. unfold qb_tsafe_on, bind, tsafe_lock.
    destruct (tsafe_enabled_mutex s); [exact H |]. simpl.
    apply (lock_outside_calls_same
             (log [EvLock; EvWriteDisabled 0; EvUnlock] s));
      [simpl; now repeat rewrite <- app_assoc |].
    now apply lock_outside_calls_log.
  - intros s H. unfold qb_tsafe_off, bind, tsafe_lock.
    destruct (tsafe_enabled_mutex s); [exact H |]. simpl.
    apply (lock_outside_calls_same
             (log [EvLock; EvWriteDisabled 1; EvUnlock] s));
      [simpl; now repeat rewrite <- app_assoc |].
    now apply lock_outside_calls_log.
Qed.

Lemma lock_outside_calls_init (envp : list string) :
  preserves lock_outside_calls (fun _ s => lock_outside_calls s)
            (qb_tsafe_init envp).
Proof.
  intros s H. rewrite qb_tsafe_init_cases.
  destruct (_ <? _); [exact H |].
  apply (lock_outside_calls_same
           (log (EvMalloc (sizeof_ptr * count_entries envp 1)
                   :: map EvStrdup envp
                   ++ [EvAtfork; EvWriteDisabled 1; EvWriteInited 1]) s)).
  - unfold inited_with. destruct HAVE_PTHREAD_SPIN_LOCK; simpl;
      repeat rewrite <- app_assoc; reflexivity.
  - apply lock_outside_calls_log; [| | exact H]; simpl.
    + rewrite held_after_app.
      assert (E : held_after false (map EvStrdup envp) = false)
        by (induction envp; simpl; auto).
      now rewrite E.
    + rewrite calls_unlocked_app.
      assert (E1 : calls_unlocked false (map EvStrdup envp) = true)
        by (induction envp; simpl; auto).
      assert (E2 : held_after false (map EvStrdup envp) = false)
        by (induction envp; simpl; auto).
      now rewrite E1, E2.
Qed.

(** X7.  In the log of any run of a process from its start, also one
    that ends in an abort or a fault, every resolver call and every call
    of a real function lies outside the stretches between taking and
    releasing the lock, and the log ends with the lock released: the
    lock is held for the write of the flag alone, never across a
    forwarded call. *)
Theorem lock_never_held_across_a_call (w : world) (cs : list call) :
  calls_unlocked false (trace (snd (run cs (initial w)))) = true
  /\ held_after false (trace (snd (run cs (initial w)))) = false.
Proof.
  pose proof (run_preserves _ _ lock_outside_calls_respected cs (initial w)
                lock_outside_calls_init) as H.
  assert (H0 : lock_outside_calls (initial w)) by (split; reflexivity).
  specialize (H H0).
  destruct (run cs (initial w)) as [[h |] s]; simpl; destruct H; auto.
Qed.

(** ** Beyond the claims: the banned functions while the gate is disabled *)

(** X8.  While the gate is disabled, a banned entry point that follows
    the common pattern (all but [crypt] and the non-BSD [setgrent])
    whose real function resolves is that function: it is called once
    with the arguments of the call, in their order, its result is
    returned and the world is what it makes of it.  The log shows the
    flag reads, the resolver call if the pointer was still null, and the
    call; the flags, the snapshot and the lock are as before, and the
    pointer is cached. *)
Theorem regular_calls_pass_through (b : banned_call) (s : proc) :
  regular b = true ->
  gate_enabled s = false ->
  coherent s ->
  resolved (symbol b) <> NULL ->
  fst (exec_banned b s) = Ok (fst (direct b (libc s)))
  /\ libc (snd (exec_banned b s)) = snd (direct b (libc s))
  /\ emitted (exec_banned b) s
     = gate_reads s ++ lookup_events (symbol b) s
         ++ [EvCall (resolved (symbol b)) (arguments b)]
  /\ tsafe_disabled (snd (exec_banned b s)) = tsafe_disabled s
  /\ tsafe_inited (snd (exec_banned b s)) = tsafe_inited s
  /\ coro_environ (snd (exec_banned b s)) = coro_environ s
  /\ tsafe_enabled_mutex (snd (exec_banned b s)) = tsafe_enabled_mutex s
  /\ real_ (snd (exec_banned b s)) (symbol b) = resolved (symbol b).
Proof.
  intros Hb Hg Hc Hr. destruct (regular_shape b Hb) as [d Hd].
  assert (Ee : emitted (exec_banned b) s
               = gate_reads s ++ lookup_events (symbol b) s
                   ++ [EvCall (resolved (symbol b)) (arguments b)]).
  { apply emitted_of_trace. rewrite Hd.
    destruct (banned_forwards (symbol b) (arguments b) d s Hg Hc Hr)
      as (s' & -> & _ & H3 & _). exact H3. }
  rewrite Hd, banned_disabled by exact Hg.
  destruct (forward_resolvable (symbol b) (arguments b)
              (log (gate_reads s) s) (coherent_log _ s Hc) Hr)
    as (s' & H1 & H2 & _ & H4 & H5 & H6 & H7 & H8).
  rewrite Hd in Ee. rewrite H1. simpl in *. unfold direct.
  repeat split; assumption.
Qed.

Lemma init_not_aborted (envp : list string) (s : proc) :
  fst (qb_tsafe_init envp s) <> Halt Aborted.
Proof. rewrite qb_tsafe_init_cases. destruct (_ <? _); discriminate. Qed.

Lemma switch_not_aborted (s : proc) :
  fst (qb_tsafe_on s) <> Halt Aborted /\ fst (qb_tsafe_off s) <> Halt Aborted.
Proof.
  unfold qb_tsafe_on, qb_tsafe_off, bind, tsafe_lock.
  destruct (tsafe_enabled_mutex s); split; discriminate.
Qed.

(** X9.  While the gate is disabled no call into the library ends in
    the assertion, whether or not the real function resolves, with the
    one exception of the non-BSD [setgrent]: the assertion of the banned
    functions and the snapshot of [getenv] are behind the gate, and the
    control functions, [pthread_create] and [catgets] have no assertion
    at all. *)
Theorem disabled_gate_never_aborts (c : call) (s : proc) :
  asserts_after_call c = false ->
  gate_enabled s = false ->
  fst (exec c s) <> Halt Aborted.
Proof.
  intros Ha Hg. destruct c; simpl.
  - unfold bind. pose proof (init_not_aborted envp s) as H.
    destruct (qb_tsafe_init envp s) as [[u | h] s1]; simpl in *;
      [discriminate | intros E; apply H; now inversion E].
  - unfold bind. pose proof (proj1 (switch_not_aborted s)) as H.
    destruct (qb_tsafe_on s) as [[u | h] s1]; simpl in *;
      [discriminate | intros E; apply H; now inversion E].
  - unfold bind. pose proof (proj2 (switch_not_aborted s)) as H.
    destruct (qb_tsafe_off s) as [[u | h] s1]; simpl in *;
      [discriminate | intros E; apply H; now inversion E].
  - destruct (pthread_create_outcome thread attr start_routine arg s)
      as [[s1 ->] | [s1 ->]]; [discriminate |].
    rewrite forward_cases. destruct (_ =? NULL); discriminate.
  - rewrite (getenv_disabled name s Hg), forward_cases.
    destruct (_ =? NULL); discriminate.
  - discriminate.
  - now apply never_aborts_while_disabled.
Qed.

(** ** Beyond the claims: how the operations compose *)

(** X10.  A stretch of code bracketed by [qb_tsafe_off] and [qb_tsafe_on]
    in a process whose gate is enabled: before the bracket a banned
    function aborts; inside it, one that follows the common pattern and
    resolves is the real function; and after it the same call aborts
    again, now with the pointer already cached. *)
Theorem bracket_lifts_the_ban (b : banned_call) (s : proc) :
  gate_enabled s = true ->
  tsafe_enabled_mutex s = false ->
  coherent s ->
  regular b = true ->
  resolved (symbol b) <> NULL ->
  fst (exec_banned b s) = Halt Aborted
  /\ fst (exec_banned b (snd (qb_tsafe_off s)))
     = Ok (fst (direct b (libc s)))
  /\ fst (exec_banned b
            (snd (qb_tsafe_on
                    (snd (exec_banned b (snd (qb_tsafe_off s)))))))
     = Halt Aborted
  /\ real_ (snd (qb_tsafe_on (snd (exec_banned b (snd (qb_tsafe_off s))))))
       (symbol b) = resolved (symbol b).
Proof.
  intros Hg Hm Hc Hb Hr.
  unfold gate_enabled in Hg. apply andb_true_iff in Hg.
  destruct Hg as [Hi Hd]. apply negb_true_iff, Z.eqb_neq in Hi.
  apply Z.eqb_eq in Hd.
  destruct (regular_shape b Hb) as [d Hs].
  assert (Goff : gate_enabled (snd (qb_tsafe_off s)) = false).
  { rewrite (qb_tsafe_off_eval s Hm). unfold gate_enabled. simpl.
    apply andb_false_r. }
  assert (Coff : coherent (snd (qb_tsafe_off s))).
  { rewrite (qb_tsafe_off_eval s Hm). exact Hc. }
  assert (Loff : libc (snd (qb_tsafe_off s)) = libc s)
    by (now rewrite (qb_tsafe_off_eval s Hm)).
  assert (Ioff : tsafe_inited (snd (qb_tsafe_off s)) = tsafe_inited s)
    by (now rewrite (qb_tsafe_off_eval s Hm)).
  assert (Moff : tsafe_enabled_mutex (snd (qb_tsafe_off s)) = false)
    by (now rewrite (qb_tsafe_off_eval s Hm)).
  split.
  { rewrite Hs, (banned_enabled _ _ _ s Hi Hd). reflexivity. }
  rewrite Hs. rewrite (banned_disabled _ _ _ (snd (qb_tsafe_off s)) Goff).
  destruct (forward_resolvable (symbol b) (arguments b)
              (log (gate_reads (snd (qb_tsafe_off s))) (snd (qb_tsafe_off s)))
              (coherent_log _ _ Coff) Hr)
    as (s' & F & _ & _ & _ & I' & _ & M' & R').
  rewrite F. cbn [fst snd]. simpl in I', M'.
  rewrite Ioff in I'. rewrite Moff in M'.
  split; [simpl; now rewrite Loff |].
  rewrite (qb_tsafe_on_eval s' M').
  split.
  - rewrite banned_enabled; [reflexivity | simpl; congruence | reflexivity].
  - simpl. exact R'.
Qed.

(** X11.  The child of a [fork] of an initialised process starts with
    the gate disabled, so that there a banned function that follows the
    common pattern and resolves is the real one again; the first
    [pthread_create] of the child enables the gate, and from then on
    every banned function aborts in the child as well. *)
Theorem child_is_unguarded_until_it_spawns
        (thread attr start_routine arg : cval) (s : proc) :
  tsafe_inited s <> 0 ->
  tsafe_enabled_mutex s = false ->
  coherent s ->
  gate_enabled (snd (fork_in_child s)) = false
  /\ (forall b : banned_call,
         regular b = true ->
         resolved (symbol b) <> NULL ->
         fst (exec_banned b (snd (fork_in_child s)))
         = Ok (fst (direct b (libc s))))
  /\ gate_enabled
       (snd (pthread_create thread attr start_routine arg
               (snd (fork_in_child s)))) = true
  /\ (forall b : banned_call,
         fst (exec_banned b
                (snd (pthread_create thread attr start_routine arg
                        (snd (fork_in_child s))))) = Halt Aborted).
Proof.
  intros Hi Hm Hc. rewrite (fork_in_child_eval s Hm).
  set (child := log (child_events s) (set_disabled (child_flag s) s)).
  simpl snd.
  assert (Ic : tsafe_inited child <> 0) by exact Hi.
  assert (Mc : tsafe_enabled_mutex child = false) by exact Hm.
  assert (Cc : coherent child) by exact Hc.
  assert (Gc : gate_enabled child = false).
  { unfold gate_enabled, child, child_flag. simpl.
    destruct (Z.eqb_spec (tsafe_inited s) 0) as [E | _]; [contradiction |].
    destruct (Z.eqb_spec (tsafe_disabled s) 0) as [E | E]; simpl;
      [reflexivity |].
    destruct (Z.eqb_spec (tsafe_disabled s) 0); [contradiction | reflexivity]. }
  destruct (pthread_create_flags thread attr start_routine arg child Ic Mc)
    as (G1 & G2 & _).
  split; [exact Gc |]. split; [| split].
  - intros b Hb Hr. exact (proj1 (regular_forwards b child Hb Gc Cc Hr)).
  - unfold gate_enabled. rewrite G2.
    destruct (Z.eqb_spec (tsafe_inited
      (snd (pthread_create thread attr start_routine arg child))) 0);
      [contradiction | reflexivity].
  - intros b.
    destruct b; simpl;
      first [ exact (f_equal fst (banned_enabled _ _ _ _ G1 G2))
            | exact (f_equal fst (setgrent_enabled _ G1 G2)) ].
Qed.

End Properties.

(** ** The theorems at work on the demonstration platform *)

Ltac by_running := vm_compute; first [reflexivity | discriminate].

Lemma demo_fresh_coherent : @coherent demo_platform demo_fresh.
Proof. intros f. left. reflexivity. Qed.

Lemma demo_inited_coherent : @coherent demo_platform demo_inited.
Proof. intros f. left. reflexivity. Qed.

Lemma demo_on_coherent : @coherent demo_platform demo_on.
Proof. intros f. left. reflexivity. Qed.

Lemma demo_envp_has_eq : Forall has_eq demo_envp.
Proof. repeat constructor; by_running. Qed.

Example demo_getenv_home :
  fst (@getenv demo_platform "HOME" demo_enabled) = Ok (Venv 1 5).
Proof. by_running. Qed.

Example demo_getenv_prefix_is_no_match :
  fst (@getenv demo_platform "HOM" demo_enabled) = Ok Vnull.
Proof. by_running. Qed.

Example demo_getenv_forwarded_while_disabled :
  fst (@getenv demo_platform "HOME" demo_inited) = Ok (Vint 4192).
Proof. by_running. Qed.

Example demo_real_environment_changed :
  libc demo_enabled = ["PATH=/usr/bin"].
Proof. by_running. Qed.

Lemma banned_aborts_when_enabled_witness :
  @exec_banned demo_platform
    (c_setenv (Vstr "PATH") (Vstr "/tmp") (Vint 1)) demo_enabled
  = (Halt Aborted, log [EvReadInited; EvReadDisabled; EvAssert] demo_enabled).
Proof.
  apply (@banned_aborts_when_enabled demo_platform); by_running.
Defined.

Lemma setgrent_aborts_while_disabled_witness :
  gate_enabled demo_inited = false
  /\ fst (@exec_banned demo_platform c_setgrent demo_inited) = Halt Aborted
  /\ emitted (@exec_banned demo_platform c_setgrent) demo_inited
     = [EvReadInited; EvReadDisabled; EvDlsym "setgrent"; EvCall 4224 [];
        EvAssert].
Proof.
  assert (Hb : @QB_BSD demo_platform = false) by by_running.
  assert (Hg : gate_enabled demo_inited = false) by by_running.
  assert (Hr : @resolved demo_platform "setgrent" <> NULL) by by_running.
  destruct (@setgrent_aborts_while_disabled demo_platform demo_inited
              Hb Hg demo_inited_coherent Hr) as (H1 & _ & H3).
  split; [exact Hg |]. split; [exact H1 |].
  rewrite H3. by_running.
Defined.

Lemma pthread_create_enables_gate_witness :
  gate_enabled demo_inited = false
  /\ gate_enabled (snd (@exec demo_platform demo_spawn demo_inited)) = true
  /\ gate_enabled
       (snd (@run demo_platform [demo_spawn; demo_spawn; demo_spawn]
               demo_inited)) = true
  /\ gate_enabled
       (snd (@qb_tsafe_off demo_platform
               (snd (@run demo_platform [demo_spawn; demo_spawn; demo_spawn]
                       demo_inited)))) = false
  /\ fst (@pthread_create demo_platform (Vobj 1) Vnull (Vobj 2) Vnull
            demo_inited) = Ok (Vint 4320).
Proof.
  destruct (@pthread_create_enables_gate demo_platform) as (H1 & _ & H3).
  assert (Hi : tsafe_inited demo_inited <> 0) by by_running.
  assert (Hm : tsafe_enabled_mutex demo_inited = false) by by_running.
  assert (Hc : forallb is_pthread_create [demo_spawn; demo_spawn; demo_spawn]
               = true) by by_running.
  assert (Hr : @resolved demo_platform "pthread_create" <> NULL)
    by by_running.
  split; [by_running |].
  destruct (H1 demo_spawn [demo_spawn; demo_spawn] demo_inited Hi Hm Hc)
    as (G1 & G2 & G3).
  split; [exact G1 |]. split; [exact G2 |]. split; [exact G3 |].
  rewrite (proj1 (H3 (Vobj 1) Vnull (Vobj 2) Vnull demo_inited Hm
                    demo_inited_coherent Hr)).
  by_running.
Defined.

Lemma fork_disables_gate_in_child_witness :
  gate_enabled demo_enabled = true
  /\ gate_enabled (snd (@fork_in_child demo_platform demo_enabled)) = false
  /\ tsafe_disabled (snd (@fork_in_child demo_platform demo_enabled)) <> 0
  /\ gate_enabled (snd (@fork_in_parent demo_platform demo_enabled)) = true.
Proof.
  assert (Hm : tsafe_enabled_mutex demo_enabled = false) by by_running.
  assert (Hi : tsafe_inited demo_enabled <> 0) by by_running.
  assert (Hg : gate_enabled demo_enabled = true) by by_running.
  destruct (@fork_disables_gate_in_child demo_platform demo_enabled Hm)
    as ((_ & C2 & C3 & _) & (_ & _ & _ & P4 & _)).
  split; [exact Hg |]. split; [exact C2 |].
  split; [exact (C3 Hi) | now rewrite P4].
Defined.

Lemma getenv_returns_captured_value_witness :
  libc demo_enabled = ["PATH=/usr/bin"]
  /\ exists v,
       deref demo_enabled v = Some "/bin"
       /\ forall w : @world demo_platform,
            @getenv demo_platform "PATH" (set_libc w demo_enabled)
            = (Ok v,
               log [EvReadInited; EvReadDisabled] (set_libc w demo_enabled)).
Proof.
  split; [by_running |].
  apply (@getenv_returns_captured_value demo_platform demo_envp "PATH" "/bin"
           demo_calls demo_fresh demo_enabled).
  - exact demo_envp_has_eq.
  - by_running.
  - by_running.
  - by_running.
  - by_running.
  - by_running.
Defined.

Lemma resolution_at_most_once_witness :
  (count_dlsym "rand"
     (trace (snd (@run demo_platform
                    [c_banned c_rand; c_banned c_rand; c_banned c_rand]
                    demo_fresh))) <= 1)%nat
  /\ count_dlsym "setenv"
       (emitted (@exec demo_platform
                   (c_banned (c_setenv (Vstr "A") (Vstr "b") (Vint 0))))
          demo_enabled) = O
  /\ @run demo_platform
       [c_banned (c_lgammal (Vobj 1)); c_banned (c_lgammal (Vobj 1))]
       demo_fresh
     = (Some Faulted,
        snd (@exec demo_platform (c_banned (c_lgammal (Vobj 1))) demo_fresh)).
Proof.
  destruct (@resolution_at_most_once demo_platform) as (H1 & H2 & _ & H3).
  assert (Hs : real_ demo_enabled "setenv" <> NULL) by by_running.
  assert (Hr : @resolved demo_platform "lgammal" = NULL) by by_running.
  assert (Hn : count_dlsym "lgammal"
                 (emitted (@exec demo_platform (c_banned (c_lgammal (Vobj 1))))
                    demo_fresh) <> O) by by_running.
  split; [apply (H1 []) |]. split; [exact (H2 _ _ _ Hs) |].
  exact (proj1 (H3 (c_banned (c_lgammal (Vobj 1)))
                  [c_banned (c_lgammal (Vobj 1))] demo_fresh "lgammal"
                  Hr Hn)).
Defined.

(** C8, as stated, fails: in an initialised process [getenv] and
    [pthread_create] read [tsafe_disabled] with the lock not held. *)
Lemma dispatch_reads_flag_without_lock :
  emitted (@exec demo_platform (c_getenv "PATH")) demo_enabled
  = [EvReadInited; EvReadDisabled]
  /\ flag_locked false
       (emitted (@exec demo_platform (c_getenv "PATH")) demo_enabled) = false
  /\ tsafe_enabled_mutex demo_inited = false
  /\ emitted (@exec demo_platform demo_spawn) demo_inited
     = [EvReadInited; EvReadDisabled; EvLock; EvWriteDisabled 0; EvUnlock;
        EvDlsym "pthread_create"; EvCall 4320 [Vobj 1; Vnull; Vobj 2; Vnull]]
  /\ flag_locked false
       (emitted (@exec demo_platform demo_spawn) demo_inited) = false.
Proof. repeat split; by_running. Qed.

Lemma flag_accesses_and_the_lock_witness :
  flag_locked false (emitted (@qb_tsafe_on demo_platform) demo_inited) = true
  /\ flag_locked false
       (emitted (@fork_in_child demo_platform) demo_enabled) = true
  /\ flag_locked false
       (emitted (@exec demo_platform (c_getenv "PATH")) demo_enabled) = false
  /\ flag_locked false
       (emitted (@qb_tsafe_init demo_platform demo_envp) demo_fresh) = false.
Proof.
  destruct (@flag_accesses_and_the_lock demo_platform) as (H1 & H2 & H3).
  assert (M1 : tsafe_enabled_mutex demo_inited = false) by by_running.
  assert (M2 : tsafe_enabled_mutex demo_enabled = false) by by_running.
  destruct (H1 demo_inited M1) as (A1 & _).
  destruct (H1 demo_enabled M2) as (_ & _ & _ & A4).
  assert (Hs : real_symbol (c_getenv "PATH") = Some "getenv") by by_running.
  assert (Hi : tsafe_inited demo_enabled <> 0) by by_running.
  destruct (H2 (c_getenv "PATH") "getenv" demo_enabled Hs Hi) as (_ & B).
  assert (Hn : count_entries demo_envp 1 <= INT32_MAX) by by_running.
  destruct (H3 demo_envp demo_fresh Hn) as (_ & C).
  repeat split; assumption.
Defined.

Lemma setgrent_is_not_the_real_call_witness :
  gate_enabled demo_inited = false
  /\ fst (@direct demo_platform c_setgrent (libc demo_inited)) = Vint 4224
  /\ fst (@exec_banned demo_platform c_setgrent demo_inited) = Halt Aborted
  /\ fst (@exec_banned demo_platform c_setgrent demo_inited)
     <> Ok (fst (@direct demo_platform c_setgrent (libc demo_inited))).
Proof.
  assert (Hb : @QB_BSD demo_platform = false) by by_running.
  assert (Hg : gate_enabled demo_inited = false) by by_running.
  assert (Hr : @resolved demo_platform "setgrent" <> NULL) by by_running.
  destruct (@setgrent_is_not_the_real_call demo_platform demo_inited
              Hb Hg demo_inited_coherent Hr) as (_ & A & B).
  split; [exact Hg |]. split; [by_running |]. split; [exact A | exact B].
Defined.

Lemma setgrent_aborts_before_initialisation_witness :
  tsafe_inited demo_fresh = 0
  /\ fst (@exec demo_platform (c_banned c_setgrent) demo_fresh) = Halt Aborted
  /\ emitted (@exec demo_platform (c_banned c_setgrent)) demo_fresh
     = [EvReadInited; EvDlsym "setgrent"; EvCall 4224 []; EvAssert].
Proof.
  assert (Hb : @QB_BSD demo_platform = false) by by_running.
  assert (Hi : tsafe_inited demo_fresh = 0) by by_running.
  assert (Hr : @resolved demo_platform "setgrent" <> NULL) by by_running.
  destruct (@setgrent_aborts_before_initialisation demo_platform demo_fresh
              Hb Hi demo_fresh_coherent Hr) as (A & B & _).
  split; [exact Hi |]. split; [exact A |]. rewrite B. by_running.
Defined.

Lemma uninitialised_calls_pass_through_witness :
  gate_enabled demo_fresh = false
  /\ fst (@exec demo_platform demo_spawn demo_fresh) = Ok (Vint 4320)
  /\ emitted (@exec demo_platform demo_spawn) demo_fresh
     = [EvReadInited; EvDlsym "pthread_create";
        EvCall 4320 [Vobj 1; Vnull; Vobj 2; Vnull]]
  /\ gate_enabled (snd (@exec demo_platform demo_spawn demo_fresh)) = false.
Proof.
  assert (Hi : tsafe_inited demo_fresh = 0) by by_running.
  assert (Hp : @forwards_plainly demo_platform demo_spawn = true)
    by by_running.
  assert (Hs : real_symbol demo_spawn = Some "pthread_create") by by_running.
  assert (Hr : @resolved demo_platform "pthread_create" <> NULL)
    by by_running.
  destruct (@uninitialised_calls_pass_through demo_platform demo_spawn
              "pthread_create" demo_fresh Hi Hp Hs demo_fresh_coherent Hr)
    as (A & _ & C & _ & E & _).
  split; [by_running |]. split; [rewrite A; by_running |].
  split; [rewrite C; by_running |].
  unfold gate_enabled. rewrite E. reflexivity.
Defined.

Lemma getenv_snapshot_lookup_witness :
  @getenv demo_platform "SHELL" demo_enabled
  = (Ok Vnull, log [EvReadInited; EvReadDisabled] demo_enabled)
  /\ @getenv demo_platform "HOME" demo_enabled
     = (Ok (Venv 1 5), log [EvReadInited; EvReadDisabled] demo_enabled)
  /\ strchr "HOME=/root" "="%char = Some 4
  /\ deref (snd (@getenv demo_platform "HOME" demo_enabled)) (Venv 1 5)
     = Some "/root".
Proof.
  assert (Hi : tsafe_inited demo_enabled <> 0) by by_running.
  assert (Hd : tsafe_disabled demo_enabled = 0) by by_running.
  assert (Hc : coro_environ demo_enabled = Some demo_envp) by by_running.
  assert (Hl : Z.of_nat (List.length demo_envp) <= INT32_MAX) by by_running.
  destruct (@getenv_snapshot_lookup demo_platform "SHELL" demo_envp
              demo_enabled Hi Hd Hc demo_envp_has_eq Hl) as [N _].
  destruct (@getenv_snapshot_lookup demo_platform "HOME" demo_envp
              demo_enabled Hi Hd Hc demo_envp_has_eq Hl) as [_ S].
  split.
  - apply N. intros e [<- | [<- | []]]; by_running.
  - assert (Hn : nth_error demo_envp 1 = Some "HOME=/root") by by_running.
    assert (He : name_of "HOME=/root" = "HOME") by by_running.
    destruct (S 1%nat "HOME=/root" Hn He) as (S1 & S2 & S3).
    + intros j e' Hj Hj'. destruct j as [| j]; [| lia].
      simpl in Hj'. inversion Hj'. by_running.
    + split; [exact S1 |]. split; [exact S2 | exact S3].
Defined.

(** ** The further theorems at work on the demonstration platform *)

Lemma demo_enabled_coherent : @coherent demo_platform demo_enabled.
Proof.
  apply (@reached_coherent demo_platform []
           (c_qb_tsafe_init demo_envp :: demo_calls)).
  by_running.
Qed.

Lemma gate_switches_compose_witness :
  gate_enabled (snd (@qb_tsafe_on demo_platform demo_inited)) = true
  /\ gate_enabled (snd (@qb_tsafe_off demo_platform demo_enabled)) = false
  /\ fst (@qb_tsafe_off demo_platform
            (snd (@qb_tsafe_off demo_platform demo_enabled))) = Ok tt.
Proof.
  assert (M1 : tsafe_enabled_mutex demo_inited = false) by by_running.
  assert (M2 : tsafe_enabled_mutex demo_enabled = false) by by_running.
  destruct (@gate_switches_compose demo_platform demo_inited M1)
    as ((_ & _ & A & _) & _).
  destruct (@gate_switches_compose demo_platform demo_enabled M2)
    as (_ & (_ & _ & B & _) & _ & (C & _) & _).
  split; [rewrite A; by_running |]. split; [exact B | exact C].
Defined.

Lemma qb_tsafe_init_effect_witness :
  tsafe_disabled demo_on = 0
  /\ tsafe_disabled (snd (@qb_tsafe_init demo_platform demo_envp demo_on)) = 1
  /\ coro_environ (snd (@qb_tsafe_init demo_platform demo_envp demo_on))
     = Some ["PATH=/bin"; "HOME=/root"]
  /\ emitted (@qb_tsafe_init demo_platform demo_envp) demo_on
     = [EvMalloc 24; EvStrdup "PATH=/bin"; EvStrdup "HOME=/root"; EvAtfork;
        EvWriteDisabled 1; EvWriteInited 1].
Proof.
  assert (Hl : Z.of_nat (List.length demo_envp) < INT32_MAX) by by_running.
  destruct (@qb_tsafe_init_effect demo_platform demo_envp demo_on Hl)
    as (_ & A & _ & B & _ & _ & _ & _ & C).
  split; [by_running |]. split; [exact B |]. split; [exact A |].
  rewrite C. by_running.
Defined.

Lemma getenv_forwards_while_disabled_witness :
  coro_environ demo_inited = Some ["PATH=/bin"; "HOME=/root"]
  /\ fst (@getenv demo_platform "PATH" demo_inited) = Ok (Vint 4192)
  /\ emitted (@getenv demo_platform "PATH") demo_inited
     = [EvReadInited; EvReadDisabled; EvDlsym "getenv";
        EvCall 4192 [Vstr "PATH"]].
Proof.
  assert (Hg : gate_enabled demo_inited = false) by by_running.
  assert (Hr : @resolved demo_platform "getenv" <> NULL) by by_running.
  destruct (@getenv_forwards_while_disabled demo_platform "PATH" demo_inited
              Hg demo_inited_coherent Hr) as (A & _ & C & _).
  split; [by_running |]. split; [rewrite A | rewrite C]; by_running.
Defined.

Lemma getenv_name_with_eq_is_unbound_witness :
  @getenv demo_platform "PATH=/bin" demo_enabled
  = (Ok Vnull, log [EvReadInited; EvReadDisabled] demo_enabled).
Proof.
  apply (@getenv_name_with_eq_is_unbound demo_platform "PATH=/bin" demo_envp
           demo_enabled).
  - by_running.
  - by_running.
  - by_running.
  - exact demo_envp_has_eq.
  - by_running.
  - by_running.
Defined.

Lemma calls_keep_what_is_not_theirs_witness :
  coro_environ
    (snd (@exec demo_platform
            (c_banned (c_setenv (Vstr "PATH") (Vstr "/usr/bin") (Vint 1)))
            demo_inited))
  = coro_environ demo_inited
  /\ tsafe_disabled (snd (@exec demo_platform (c_getenv "HOME") demo_enabled))
     = tsafe_disabled demo_enabled.
Proof.
  destruct (@calls_keep_what_is_not_theirs demo_platform) as (H1 & H2).
  assert (A : is_init (c_banned (c_setenv (Vstr "PATH") (Vstr "/usr/bin")
                                   (Vint 1))) = false) by by_running.
  assert (B : may_write_flag (c_getenv "HOME") = false) by by_running.
  split; [exact (proj1 (H1 _ demo_inited A)) |].
  exact (proj1 (H2 _ demo_enabled B)).
Defined.

Lemma lock_is_waited_for_only_to_enable_witness :
  fst (@pthread_create demo_platform (Vobj 1) Vnull (Vobj 2) Vnull
         (set_mutex true demo_inited)) = Halt Blocked
  /\ fst (@pthread_create demo_platform (Vobj 1) Vnull (Vobj 2) Vnull
            (set_mutex true demo_enabled)) <> Halt Blocked
  /\ fst (@run demo_platform demo_calls demo_inited) <> Some Blocked.
Proof.
  destruct (@lock_is_waited_for_only_to_enable demo_platform) as (H1 & H2).
  assert (Hm : tsafe_enabled_mutex demo_inited = false) by by_running.
  split; [| split].
  - apply H1. repeat split; by_running.
  - intros H. apply H1 in H. destruct H as (_ & H & _). apply H. by_running.
  - exact (proj1 (H2 demo_calls demo_inited Hm)).
Defined.

Lemma regular_calls_pass_through_witness :
  fst (@exec_banned demo_platform
         (c_setenv (Vstr "PATH") (Vstr "/usr/bin") (Vint 1)) demo_inited)
  = Ok (Vint 0)
  /\ libc (snd (@exec_banned demo_platform
                  (c_setenv (Vstr "PATH") (Vstr "/usr/bin") (Vint 1))
                  demo_inited))
     = ["PATH=/usr/bin"]
  /\ emitted (@exec_banned demo_platform
                (c_setenv (Vstr "PATH") (Vstr "/usr/bin") (Vint 1)))
       demo_inited
     = [EvReadInited; EvReadDisabled; EvDlsym "setenv";
        EvCall 4097 [Vstr "PATH"; Vstr "/usr/bin"; Vint 1]].
Proof.
  assert (Hb : @regular demo_platform
                 (c_setenv (Vstr "PATH") (Vstr "/usr/bin") (Vint 1)) = true)
    by by_running.
  assert (Hg : gate_enabled demo_inited = false) by by_running.
  assert (Hr : @resolved demo_platform "setenv" <> NULL) by by_running.
  destruct (@regular_calls_pass_through demo_platform
              (c_setenv (Vstr "PATH") (Vstr "/usr/bin") (Vint 1)) demo_inited
              Hb Hg demo_inited_coherent Hr) as (A & B & C & _).
  split; [rewrite A; by_running |].
  split; [rewrite B | rewrite C]; by_running.
Defined.

Lemma disabled_gate_never_aborts_witness :
  fst (@exec demo_platform (c_banned (c_crypt (Vstr "pw") (Vstr "ab")))
         demo_fresh) <> Halt Aborted
  /\ fst (@exec demo_platform (c_banned (c_lgammal (Vobj 1))) demo_inited)
     <> Halt Aborted.
Proof.
  assert (A1 : @asserts_after_call demo_platform
                 (c_banned (c_crypt (Vstr "pw") (Vstr "ab"))) = false)
    by by_running.
  assert (A2 : @asserts_after_call demo_platform
                 (c_banned (c_lgammal (Vobj 1))) = false) by by_running.
  assert (G1 : gate_enabled demo_fresh = false) by by_running.
  assert (G2 : gate_enabled demo_inited = false) by by_running.
  split.
  - exact (@disabled_gate_never_aborts demo_platform _ demo_fresh A1 G1).
  - exact (@disabled_gate_never_aborts demo_platform _ demo_inited A2 G2).
Defined.

Lemma bracket_lifts_the_ban_witness :
  fst (@exec_banned demo_platform c_rand demo_enabled) = Halt Aborted
  /\ fst (@exec_banned demo_platform c_rand
            (snd (@qb_tsafe_off demo_platform demo_enabled)))
     = Ok (Vint 4160)
  /\ fst (@exec_banned demo_platform c_rand
            (snd (@qb_tsafe_on demo_platform
                    (snd (@exec_banned demo_platform c_rand
                            (snd (@qb_tsafe_off demo_platform
                                    demo_enabled)))))))
     = Halt Aborted.
Proof.
  assert (Hg : gate_enabled demo_enabled = true) by by_running.
  assert (Hm : tsafe_enabled_mutex demo_enabled = false) by by_running.
  assert (Hb : @regular demo_platform c_rand = true) by by_running.
  assert (Hr : @resolved demo_platform "rand" <> NULL) by by_running.
  destruct (@bracket_lifts_the_ban demo_platform c_rand demo_enabled
              Hg Hm demo_enabled_coherent Hb Hr) as (A & B & C & _).
  split; [exact A |]. split; [rewrite B; by_running | exact C].
Defined.

Lemma child_is_unguarded_until_it_spawns_witness :
  gate_enabled demo_enabled = true
  /\ gate_enabled (snd (@fork_in_child demo_platform demo_enabled)) = false
  /\ fst (@exec_banned demo_platform c_rand
            (snd (@fork_in_child demo_platform demo_enabled)))
     = Ok (Vint 4160)
  /\ gate_enabled
       (snd (@pthread_create demo_platform (Vobj 1) Vnull (Vobj 2) Vnull
               (snd (@fork_in_child demo_platform demo_enabled)))) = true
  /\ fst (@exec_banned demo_platform c_rand
            (snd (@pthread_create demo_platform (Vobj 1) Vnull (Vobj 2) Vnull
                    (snd (@fork_in_child demo_platform demo_enabled)))))
     = Halt Aborted.
Proof.
  assert (Hi : tsafe_inited demo_enabled <> 0) by by_running.
  assert (Hm : tsafe_enabled_mutex demo_enabled = false) by by_running.
  assert (Hb : @regular demo_platform c_rand = true) by by_running.
  assert (Hr : @resolved demo_platform "rand" <> NULL) by by_running.
  destruct (@child_is_unguarded_until_it_spawns demo_platform
              (Vobj 1) Vnull (Vobj 2) Vnull demo_enabled Hi Hm
              demo_enabled_coherent) as (A & B & C & D).
  split; [by_running |]. split; [exact A |].
  split; [rewrite (B c_rand Hb Hr); by_running |].
  split; [exact C | exact (D c_rand)].
Defined.

